(** * RMC car-number roster: a shallow embedding of [RMC车号统计.py]

    The development follows the source file function by function:
    - Python text ([str]) is a list of Unicode code points;
    - [parse_entry_tokens] is the entry tokenizer;
    - [read_tables_from_txt] is the reader with its two layouts;
    - [update_table_rows], [set_single_entry] and [delete_entry] are the
      reconciliation engine, with the working [dict] as a [gmap] and the
      [set] of reported numbers as a [gset];
    - [write_tables_to_txt] is the fixed-layout writer.

    Python's [int] is unbounded, hence [Z]. An exception is an explicit
    [Raise] in the [result] type. The console prompts and the copying of
    the backup file are outside the model: the functions take what the
    prompts return and the text of the file, and give the text to write.
    Text is decoded text: the UTF-8 coding of the file is outside the model
    too. *)

From Stdlib Require Import ZArith List Lia Bool String Ascii.
From Stdlib Require Import Sorting.Sorted.
From stdpp Require Import base gmap sets list sorting.
Import ListNotations.

Open Scope Z_scope.

(** ** Text *)

(** A Python [str]: the sequence of its code points. *)
Abbreviation str := (list Z).

Definition TAB : Z := 9.
Definition LF : Z := 10.
Definition CR : Z := 13.
Definition SPACE : Z := 32.

(** Decoding of the UTF-8 bytes of a literal, so that the literals of the
    source can be written as they are in it. *)
Fixpoint utf8_decode (bs : list Z) : str :=
  match bs with
  | [] => []
  | b :: r =>
    if b <? 0x80 then b :: utf8_decode r
    else if b <? 0xE0 then
      match r with
      | b1 :: r1 => ((b - 0xC0) * 64 + (b1 - 0x80)) :: utf8_decode r1
      | _ => []
      end
    else if b <? 0xF0 then
      match r with
      | b1 :: b2 :: r2 =>
        ((b - 0xE0) * 4096 + (b1 - 0x80) * 64 + (b2 - 0x80)) :: utf8_decode r2
      | _ => []
      end
    else
      match r with
      | b1 :: b2 :: b3 :: r3 =>
        ((b - 0xF0) * 262144 + (b1 - 0x80) * 4096 + (b2 - 0x80) * 64 + (b3 - 0x80))
          :: utf8_decode r3
      | _ => []
      end
  end.

Definition lit (s : string) : str :=
  utf8_decode (map (fun a => Z.of_N (N_of_ascii a)) (list_ascii_of_string s)).

(** [Py_UNICODE_ISSPACE]: the characters [str.strip], [str.split],
    [str.isspace] and the [\s] of [re] treat as whitespace. *)
Definition isspace_char (c : Z) : bool :=
  ((0x09 <=? c) && (c <=? 0x0D)) || ((0x1C <=? c) && (c <=? 0x20))
  || (c =? 0x85) || (c =? 0xA0) || (c =? 0x1680)
  || ((0x2000 <=? c) && (c <=? 0x200A))
  || (c =? 0x2028) || (c =? 0x2029) || (c =? 0x202F) || (c =? 0x205F)
  || (c =? 0x3000).

(** The numeric type of a code point in the Unicode character database:
    [Decimal v] for the decimal digits of every script (category Nd), with
    their value; [Digit] for the characters that are digits without being
    decimal (superscripts, circled digits, ...). *)
Inductive numeric_type :=
  | Decimal (v : Z)
  | Digit
  | NotDigit.

(** The database depends on the interpreter's Unicode version, so it is a
    parameter. The laws are facts that hold in every version. *)
Class UnicodeDB := {
  numeric : Z -> numeric_type;
  numeric_ascii_digit : forall c, 48 <= c <= 57 -> numeric c = Decimal (c - 48);
  numeric_ascii_other :
    forall c, 0 <= c < 128 -> ~ (48 <= c <= 57) -> numeric c = NotDigit;
  numeric_cjk : forall c, 0x4E00 <= c <= 0x9FFF -> numeric c = NotDigit;
  numeric_superscript_two : numeric 0xB2 = Digit;
  numeric_decimal_range : forall c v, numeric c = Decimal v -> 0 <= v <= 9
}.

(** The smallest database: the ASCII digits and the three Latin-1
    superscript digits. *)
Definition base_numeric (c : Z) : numeric_type :=
  if (48 <=? c) && (c <=? 57) then Decimal (c - 48)
  else if (c =? 0xB2) || (c =? 0xB3) || (c =? 0xB9) then Digit
  else NotDigit.

#[program] Definition base_ucd : UnicodeDB := {| numeric := base_numeric |}.
Next Obligation.
  intros c Hc. unfold base_numeric.
  replace ((48 <=? c) && (c <=? 57)) with true; [reflexivity|].
  symmetry. apply andb_true_iff. split; apply Z.leb_le; lia.
Qed.
Next Obligation.
  intros c Hc Hn. unfold base_numeric.
  destruct (48 <=? c) eqn:E1; destruct (c <=? 57) eqn:E2; simpl;
    try (apply Z.leb_le in E1); try (apply Z.leb_le in E2);
    try (apply Z.leb_gt in E1); try (apply Z.leb_gt in E2); try lia;
    (replace (c =? 178) with false by (symmetry; apply Z.eqb_neq; lia));
    (replace (c =? 179) with false by (symmetry; apply Z.eqb_neq; lia));
    (replace (c =? 185) with false by (symmetry; apply Z.eqb_neq; lia));
    reflexivity.
Qed.
Next Obligation.
  intros c Hc. unfold base_numeric.
  replace (48 <=? c) with true by (symmetry; apply Z.leb_le; lia).
  replace (c <=? 57) with false by (symmetry; apply Z.leb_gt; lia).
  simpl.
  replace (c =? 178) with false by (symmetry; apply Z.eqb_neq; lia).
  replace (c =? 179) with false by (symmetry; apply Z.eqb_neq; lia).
  replace (c =? 185) with false by (symmetry; apply Z.eqb_neq; lia).
  reflexivity.
Qed.
Next Obligation. reflexivity. Qed.
Next Obligation.
  intros c v. unfold base_numeric.
  destruct (48 <=? c) eqn:E1; destruct (c <=? 57) eqn:E2; simpl;
    try (destruct ((c =? 178) || (c =? 179) || (c =? 185)); discriminate).
  intros [= <-]. apply Z.leb_le in E1. apply Z.leb_le in E2. lia.
Qed.

(** ** Exceptions *)

Inductive exn := ValueError.

Inductive result (A : Type) :=
  | Ret (a : A)
  | Raise (e : exn).
Arguments Ret {A} a.
Arguments Raise {A} e.

#[global] Instance result_ret : MRet result := @Ret.

#[global] Instance result_bind : MBind result := fun A B k m =>
  match m with
  | Ret a => k a
  | Raise e => Raise e
  end.

(** A record of a table, as the source's tuple [(number, unused, name)]. *)
Abbreviation entry := (Z * Z * str)%type.

Definition num_of (e : entry) : Z := e.1.1.
Definition unused_of (e : entry) : Z := e.1.2.
Definition name_of (e : entry) : str := e.2.

Section Tokenizer.
Context `{U : UnicodeDB}.

Definition isdigit_char (c : Z) : bool :=
  match numeric c with
  | NotDigit => false
  | _ => true
  end.

(** [str.isdigit()]: at least one character, all of them digits. *)
Definition isdigit (s : str) : bool :=
  match s with
  | [] => false
  | _ => forallb isdigit_char s
  end.

(** The value of a string of decimal characters, read from the left. *)
Fixpoint decimal_value (acc : Z) (s : str) : option Z :=
  match s with
  | [] => Some acc
  | c :: r =>
    match numeric c with
    | Decimal v => decimal_value (acc * 10 + v) r
    | _ => None
    end
  end.

(** [int(s)] for the strings the program gives it, which all satisfy
    [isdigit] (no sign, no blank, no underscore): the decimal value, or
    [ValueError] when a character is a digit that is not decimal. The
    interpreter's optional limit on the number of digits is not part of
    the model. *)
Definition int (s : str) : result Z :=
  match decimal_value 0 s with
  | Some n => Ret n
  | None => Raise ValueError
  end.

Definition parse_entry_tokens (tokens : list str) : result (option entry) :=
  let len := Z.of_nat (length tokens) in
  let tok (i : nat) := nth i tokens [] in
  if len =? 0 then Ret None
  else if isdigit (tok 0%nat) then
    if (2 <=? len) && isdigit (tok 1%nat) then
      n ← int (tok 0%nat); u ← int (tok 1%nat); Ret (Some (n, u, []))
    else if len =? 1 then
      n ← int (tok 0%nat); Ret (Some (n, 0, []))
    else Ret None
  else
    let name := tok 0%nat in
    if (2 <=? len) && isdigit (tok 1%nat) then
      if (3 <=? len) && isdigit (tok 2%nat) then
        n ← int (tok 1%nat); u ← int (tok 2%nat); Ret (Some (n, u, name))
      else
        n ← int (tok 1%nat); Ret (Some (n, 0, name))
    else Ret None.

End Tokenizer.

(** ** String operations of the reader *)

Fixpoint lstrip (s : str) : str :=
  match s with
  | [] => []
  | c :: r => if isspace_char c then lstrip r else s
  end.

(** [s.strip()] *)
Definition strip (s : str) : str := rev (lstrip (rev (lstrip s))).

(** The end of a token: [cur] is the token being read, last character
    first, and it is a token when it has a character. *)
Definition flush (cur : str) (rest : list str) : list str :=
  match cur with
  | [] => rest
  | _ => rev cur :: rest
  end.

Fixpoint split_from (s cur : str) : list str :=
  match s with
  | [] => flush cur []
  | c :: r =>
    if isspace_char c then flush cur (split_from r [])
    else split_from r (c :: cur)
  end.

(** [s.split()]: the maximal runs of characters that are not blank. *)
Definition split (s : str) : list str := split_from s [].

(** [s.isspace()] *)
Definition isspace (s : str) : bool :=
  match s with
  | [] => false
  | _ => forallb isspace_char s
  end.

(** [s.startswith(p)] *)
Fixpoint startswith (p s : str) : bool :=
  match p, s with
  | [], _ => true
  | _ :: _, [] => false
  | a :: p', b :: s' => (a =? b) && startswith p' s'
  end.

(** [p in s] *)
Fixpoint contains (p s : str) : bool :=
  startswith p s ||
  match s with
  | [] => false
  | _ :: r => contains p r
  end.

(** The lines a text file yields, each without its line end: in text mode
    the file object first turns every [\r\n] and [\r] into [\n]. *)
Fixpoint universal_newlines (after_cr : bool) (s : str) : str :=
  match s with
  | [] => []
  | c :: r =>
    if c =? CR then LF :: universal_newlines true r
    else if (c =? LF) && after_cr then universal_newlines false r
    else c :: universal_newlines false r
  end.

Fixpoint splitlines (s : str) : list str :=
  match s with
  | [] => []
  | c :: r =>
    if c =? LF then [] :: splitlines r
    else match splitlines r with
         | [] => [[c]]
         | l :: ls => (c :: l) :: ls
         end
  end.

Definition file_lines (content : str) : list str :=
  splitlines (universal_newlines false content).

(** [re.split(r'(?:\t{2,}|\s{3,})', s)]. At a position the first
    alternative takes the whole run of tabs when it has two or more;
    otherwise the second takes the whole run of blanks when it has three
    or more. [sep_len] is the length of the match at the head of [s], 0
    for none. *)
Fixpoint run_length (p : Z -> bool) (s : str) : nat :=
  match s with
  | [] => 0%nat
  | c :: r => if p c then S (run_length p r) else 0%nat
  end.

Definition sep_len (s : str) : nat :=
  let tabs := run_length (Z.eqb TAB) s in
  if (2 <=? tabs)%nat then tabs
  else
    let blanks := run_length isspace_char s in
    if (3 <=? blanks)%nat then blanks else 0%nat.

(** The scan from left to right: [skip] characters of the current match
    are still to be passed, [cur] is the piece being read, last character
    first. *)
Fixpoint re_split_from (s : str) (skip : nat) (cur : str) : list str :=
  match s with
  | [] => [rev cur]
  | c :: r =>
    match skip with
    | S k => re_split_from r k cur
    | O =>
      match sep_len s with
      | O => re_split_from r 0%nat (c :: cur)
      | S k => rev cur :: re_split_from r k []
      end
    end
  end.

Definition re_split (s : str) : list str := re_split_from s 0%nat [].

(** ** Tables *)

(** The two tables of the roster, the source's [{"C1": [...], "C2": [...]}]:
    the reader makes both keys and the program uses no other. *)
Record roster := { C1 : list entry; C2 : list entry }.

(** The table keys ["C1"] and ["C2"]. *)
Inductive key := K1 | K2.

Definition table_get (tables : roster) (key : key) : list entry :=
  match key with
  | K1 => C1 tables
  | K2 => C2 tables
  end.

Definition table_set (tables : roster) (key : key) (rows : list entry) : roster :=
  match key with
  | K1 => {| C1 := rows; C2 := C2 tables |}
  | K2 => {| C1 := C1 tables; C2 := rows |}
  end.

(** [tables[key].append(rec)] *)
Definition append (tables : roster) (key : key) (rec : entry) : roster :=
  table_set tables key (table_get tables key ++ [rec]).

(** [if rec: tables[key].append(rec)]: a tuple is always true. *)
Definition append_if (tables : roster) (key : key) (rec : option entry) : roster :=
  match rec with
  | Some r => append tables key r
  | None => tables
  end.

(** [sorted(rows, key=lambda x: x[0])]: the stable sort by number. *)
Fixpoint insert_by_number (e : entry) (l : list entry) : list entry :=
  match l with
  | [] => [e]
  | x :: r => if num_of e <=? num_of x then e :: l else x :: insert_by_number e r
  end.

Definition sorted (rows : list entry) : list entry := foldr insert_by_number [] rows.

(** A [for] loop whose body may raise. *)
Fixpoint for_each {S A} (body : S -> A -> result S) (l : list A) (s : S) : result S :=
  match l with
  | [] => Ret s
  | a :: r => s' ← body s a; for_each body r s'
  end.

Section Reader.
Context `{U : UnicodeDB}.

Definition marker : str := lit "车号".

(** The body of the loop of the side-by-side layout. *)
Definition side_by_side_line (tables : roster) (raw_line : str) : result roster :=
  let stripped := strip raw_line in
  if bool_decide (stripped = []) then Ret tables
  else if contains marker stripped then Ret tables
  else if contains (lit "C1") stripped && contains (lit "C2") stripped
          && negb (existsb isdigit_char stripped) then Ret tables
  else if isspace (take 1 raw_line) then
    rec ← parse_entry_tokens (split stripped);
    Ret (append_if tables K2 rec)
  else
    let parts := re_split raw_line in
    if (2 <=? length parts)%nat then
      let left := strip (nth 0 parts []) in
      let right := strip (nth 1 parts []) in
      rec_l ← parse_entry_tokens (split left);
      let tables := append_if tables K1 rec_l in
      rec_r ← parse_entry_tokens (split right);
      Ret (append_if tables K2 rec_r)
    else
      rec_l ← parse_entry_tokens (split stripped);
      Ret (append_if tables K1 rec_l).

(** The body of the loop of the sequential layout; the state is
    [current_key] and the tables. *)
Definition sequential_line (st : option key * roster) (ln : str)
  : result (option key * roster) :=
  let '(current_key, tables) := st in
  let line := strip ln in
  if bool_decide (line = []) then Ret st
  else if bool_decide (line = lit "C1") then Ret (Some K1, tables)
  else if bool_decide (line = lit "C2") then Ret (Some K2, tables)
  else if startswith marker line then Ret st
  else
    match current_key with
    | Some key =>
      rec ← parse_entry_tokens (split line);
      Ret (current_key, append_if tables key rec)
    | None => Ret st
    end.

Definition is_side_by_side (lines : list str) : bool :=
  existsb (fun ln => contains (lit "C1") ln && contains (lit "C2") ln)
          (filter (fun ln => strip ln <> []) lines).

(** [content] is the decoded content of the file at [file_path]. *)
Definition read_tables_from_txt (content : str) : result roster :=
  let tables := {| C1 := []; C2 := [] |} in
  let lines := file_lines content in
  tables ←
    (if is_side_by_side lines then for_each side_by_side_line lines tables
     else st ← for_each sequential_line lines (None, tables); Ret st.2);
  Ret {| C1 := sorted (C1 tables); C2 := sorted (C2 tables) |}.

End Reader.

(** ** Reconciliation engine *)

(** The working [dict] of the engine, from a number to [(unused, name)]:
    [{num: (unused, name) for (num, unused, name) in rows}], where a later
    row replaces an earlier one of the same number. *)
Definition dict_of_rows (rows : list entry) : gmap Z (Z * str) :=
  foldl (fun d '(num, unused, name) => <[num := (unused, name)]> d) ∅ rows.

(** [[(num, unused, name) for num, (unused, name) in d.items()]] *)
Definition rows_of_dict (d : gmap Z (Z * str)) : list entry :=
  (fun '(num, (unused, name)) => (num, unused, name)) <$> map_to_list d.

(** The body of the loop over [list(d.keys())]; the state is [d] and
    [to_delete]. The key is one of [d], so [d[num]] is there. *)
Definition increment_step (new_set : gset Z) (max_unused : Z)
    (st : gmap Z (Z * str) * list Z) (num : Z) : gmap Z (Z * str) * list Z :=
  let '(d, to_delete) := st in
  if bool_decide (num ∉ new_set) then
    match d !! num with
    | Some (old_unused, old_name) =>
      let new_unused := old_unused + 1 in
      if new_unused >=? max_unused then (d, to_delete ++ [num])
      else (<[num := (new_unused, old_name)]> d, to_delete)
    | None => st
    end
  else st.

(** The body of the loop over [new_set]: an iteration touches its own
    number only. *)
Definition report_step (d : gmap Z (Z * str)) (n : Z) : gmap Z (Z * str) :=
  match d !! n with
  | Some (_, old_name) => <[n := (0, old_name)]> d
  | None => <[n := (0, [])]> d
  end.

(** The two loops run over the keys of the dictionary and over the set
    in the order [map_to_list] and [elements] give; the order is immaterial
    (lemma [iteration_order_immaterial]). *)
Definition update_table_rows (rows : list entry) (new_numbers : list Z)
    (max_unused : Z) (increment_absent : bool) : list entry :=
  let d := dict_of_rows rows in
  let new_set : gset Z := list_to_set new_numbers in
  let d :=
    if increment_absent then
      let '(d, to_delete) :=
        foldl (increment_step new_set max_unused) (d, []) (map_to_list d).*1 in
      foldl (fun d num => delete num d) d to_delete
    else d in
  let d := foldl report_step d (elements new_set) in
  sorted (rows_of_dict d).

Definition set_single_entry (tables : roster) (table_key : key)
    (car_no new_unused : Z) (name : str) (max_unused : Z) : roster :=
  let d := dict_of_rows (table_get tables table_key) in
  let d :=
    if new_unused >=? max_unused then
      if bool_decide (is_Some (d !! car_no)) then delete car_no d else d
    else
      match d !! car_no with
      | None => <[car_no := (new_unused, name)]> d
      | Some (_, old_name) =>
        <[car_no := (new_unused, match name with [] => old_name | _ => name end)]> d
      end in
  table_set tables table_key (sorted (rows_of_dict d)).

(** The part of [delete_entry] after its prompts: [table_key] and [nums]
    are what the prompts gave. The result is the tables and [removed],
    [None] when the deletion is cancelled for want of a number. *)
Definition delete_entry (tables : roster) (table_key : key) (nums : list Z)
  : roster * option Z :=
  match nums with
  | [] => (tables, None)
  | _ =>
    let before := Z.of_nat (length (table_get tables table_key)) in
    let to_remove : gset Z := list_to_set nums in
    let rows :=
      filter (fun e : entry => num_of e ∉ to_remove) (table_get tables table_key) in
    let tables := table_set tables table_key (sorted rows) in
    (tables, Some (before - Z.of_nat (length (table_get tables table_key))))
  end.

(** ** Writer *)

(** The decimal digits of a natural number, most significant first, at
    most [fuel] of them; [str_of_int] gives fuel for all of them. *)
Fixpoint digits_from (fuel : nat) (n : Z) (acc : str) : str :=
  match fuel with
  | O => acc
  | S f =>
    let acc' := (48 + n mod 10) :: acc in
    if n <? 10 then acc' else digits_from f (n / 10) acc'
  end.

(** [str(n)] *)
Definition str_of_int (n : Z) : str :=
  if n <? 0 then 45 :: digits_from (S (Z.to_nat (Z.log2 (- n)))) (- n) []
  else digits_from (S (Z.to_nat (Z.log2 n))) n [].

(** [f"{name} {n} {u}".strip()] *)
Definition format_entry (e : entry) : str :=
  let '(n, u, name) := e in
  strip (name ++ [SPACE] ++ str_of_int n ++ [SPACE] ++ str_of_int u).

(** [sep.join(l)] *)
Fixpoint join (sep : str) (l : list str) : str :=
  match l with
  | [] => []
  | [x] => x
  | x :: r => x ++ sep ++ join sep r
  end.

(** One turn of the loop over [range(max_len)]: the text of row [i]. *)
Definition row_line (rows1 rows2 : list entry) (i : nat) : str :=
  let left := match rows1 !! i with Some e => format_entry e | None => [] end in
  let right := match rows2 !! i with Some e => format_entry e | None => [] end in
  left ++ [TAB; TAB] ++ right ++ [LF].

Definition summary_line (key : str) (rows : list entry) : str :=
  let numbers_str := join (lit ",") (map (fun e : entry => str_of_int (num_of e)) rows) in
  key ++ lit " 已使用车号: " ++ numbers_str ++ [LF].

(** The text written to [output_path]. *)
Definition write_tables_to_txt (tables : roster) : str :=
  let rows1 := sorted (C1 tables) in
  let rows2 := sorted (C2 tables) in
  let max_len := Nat.max (length rows1) (length rows2) in
  lit "C1" ++ [TAB; TAB; TAB] ++ lit "C2" ++ [LF]
  ++ lit "车手 车号 闲置赛季数" ++ [TAB; TAB] ++ lit "车手 车号 闲置赛季数" ++ [LF]
  ++ concat (map (row_line rows1 rows2) (seq 0 max_len))
  ++ [LF] ++ lit "车号选择范围：0，2-999未选号码" ++ [LF]
  ++ summary_line (lit "C1") rows1
  ++ summary_line (lit "C2") rows2
  ++ lit "车号具体使用人见《 车号统计》" ++ [LF].

(** * Specification *)

(** ** Order of a table *)

(** Ascending order of number, records of one number allowed. *)
Definition ascending (rows : list entry) : Prop :=
  StronglySorted Z.le (num_of <$> rows).

(** Strictly ascending order of number: sorted, no number twice. *)
Definition strictly_ascending (rows : list entry) : Prop :=
  StronglySorted Z.lt (num_of <$> rows).

(** ** Bounds *)

Definition nonneg_entry (e : entry) : Prop := 0 <= num_of e /\ 0 <= unused_of e.

Definition nonneg_tables (tables : roster) : Prop :=
  Forall nonneg_entry (C1 tables) /\ Forall nonneg_entry (C2 tables).

Definition idle_nonneg (rows : list entry) : Prop :=
  Forall (fun e => 0 <= unused_of e) rows.

Definition idle_bounded (max_unused : Z) (rows : list entry) : Prop :=
  Forall (fun e => 0 <= unused_of e < max_unused) rows.

(** ** The dictionaries of the engine *)

Definition insert_row (d : gmap Z (Z * str)) (e : entry) : gmap Z (Z * str) :=
  let '(num, unused, name) := e in <[num := (unused, name)]> d.

(** What a season of absence leaves of [(unused, name)]. *)
Definition aged (max_unused : Z) (v : Z * str) : option (Z * str) :=
  if v.1 + 1 >=? max_unused then None else Some (v.1 + 1, v.2).

(** The dictionary at the end of [update_table_rows] when its loops run
    over [keys] and over [reported]. *)
Definition dict_in_order (rows : list entry) (new_numbers : list Z) (max_unused : Z)
    (increment_absent : bool) (keys reported : list Z) : gmap Z (Z * str) :=
  let d := dict_of_rows rows in
  let new_set : gset Z := list_to_set new_numbers in
  let d :=
    if increment_absent then
      let '(d, to_delete) := foldl (increment_step new_set max_unused) (d, []) keys in
      foldl (fun d num => delete num d) d to_delete
    else d in
  foldl report_step d reported.

(** The dictionary at the end of [update_table_rows]. *)
Definition final_dict (rows : list entry) (new_numbers : list Z) (max_unused : Z)
    (increment_absent : bool) : gmap Z (Z * str) :=
  dict_in_order rows new_numbers max_unused increment_absent
    (map_to_list (dict_of_rows rows)).*1
    (elements (list_to_set new_numbers : gset Z)).

(** The record the result of a bulk reconcile holds for a number, from
    the working dictionary [d] of the table. *)
Definition reconciled (d : gmap Z (Z * str)) (new_numbers : list Z) (max_unused : Z)
    (increment_absent : bool) (n : Z) : option (Z * str) :=
  if decide (n ∈ new_numbers) then
    Some (0, match d !! n with Some v => v.2 | None => [] end)
  else
    match d !! n with
    | Some v => if increment_absent then aged max_unused v else Some v
    | None => None
    end.

(** The dictionary at the end of [set_single_entry]. *)
Definition upsert_dict (d : gmap Z (Z * str)) (car_no new_unused : Z) (name : str)
    (max_unused : Z) : gmap Z (Z * str) :=
  if new_unused >=? max_unused then
    if bool_decide (is_Some (d !! car_no)) then delete car_no d else d
  else
    match d !! car_no with
    | None => <[car_no := (new_unused, name)]> d
    | Some (_, old_name) =>
      <[car_no := (new_unused, match name with [] => old_name | _ => name end)]> d
    end.

(** ** The text of a table *)

Definition blank (c : Z) : Prop := isspace_char c = true.

Definition nonblank (c : Z) : Prop := isspace_char c = false.

(** A token: what [split] returns, a non-empty run without blanks. *)
Definition is_token (t : str) : Prop := t <> [] /\ Forall nonblank t.

(** Tokens with one space between them. *)
Definition words (ts : list str) : str := join [SPACE] ts.

Definition ascii_digit (c : Z) : Prop := 48 <= c <= 57.

Definition is_ascii_digit (c : Z) : bool := (48 <=? c) && (c <=? 57).

(** The tokens of the text of a record. *)
Definition entry_tokens (e : entry) : list str :=
  let '(n, u, name) := e in
  match name with
  | [] => [str_of_int n; str_of_int u]
  | _ => [name; str_of_int n; str_of_int u]
  end.

(** A column of a row: the text of its record, nothing past the end of
    the table. *)
Definition column (o : option entry) : str :=
  match o with
  | Some e => format_entry e
  | None => []
  end.

Definition column_tokens (o : option entry) : list str :=
  match o with
  | Some e => entry_tokens e
  | None => []
  end.

Section Writable.
Context `{U : UnicodeDB}.

(** The names the text format can carry: no name, or a name without
    blanks that is not a digit string and does not have the marker. *)
Definition writable_name (nm : str) : Prop :=
  nm = [] \/ (Forall nonblank nm /\ isdigit nm = false /\ contains marker nm = false).

(** The records the text format can carry. *)
Definition writable (e : entry) : Prop :=
  0 <= num_of e /\ 0 <= unused_of e /\ writable_name (name_of e).

Definition writable_column (o : option entry) : Prop :=
  match o with
  | Some e => writable e
  | None => True
  end.

End Writable.

(** The lines of the written text, without their line ends. *)
Definition row_text (rows1 rows2 : list entry) (i : nat) : str :=
  column (rows1 !! i) ++ [TAB; TAB] ++ column (rows2 !! i).

Definition summary_text (key : str) (rows : list entry) : str :=
  key ++ lit " 已使用车号: "
  ++ join (lit ",") (map (fun e : entry => str_of_int (num_of e)) rows).

Definition written_lines (tables : roster) : list str :=
  let rows1 := sorted (C1 tables) in
  let rows2 := sorted (C2 tables) in
  let max_len := Nat.max (length rows1) (length rows2) in
  [lit "C1" ++ [TAB; TAB; TAB] ++ lit "C2";
   lit "车手 车号 闲置赛季数" ++ [TAB; TAB] ++ lit "车手 车号 闲置赛季数"]
  ++ map (row_text rows1 rows2) (seq 0 max_len)
  ++ [[]; lit "车号选择范围：0，2-999未选号码";
      summary_text (lit "C1") rows1; summary_text (lit "C2") rows2;
      lit "车号具体使用人见《 车号统计》"].

Definition no_newline (s : str) : Prop := Forall (fun c => c <> LF /\ c <> CR) s.

Definition with_newline (l : str) : str := l ++ [LF].

(** * The console and the main program *)

(** ** Console *)

(** The console of a run: the lines still to be typed, as [input()] returns
    them, and the text printed so far. *)
Record console := { stdin : list str; stdout : str }.

(** What ends a function of the console layer other than its return. *)
Inductive signal :=
  | Error (e : exn)
  | EOFError
  | SystemExit (code : Z).

Inductive run (A : Type) :=
  | Returns (a : A) (c : console)
  | Raises (s : signal) (c : console).
Arguments Returns {A} a c.
Arguments Raises {A} s c.

(** [k] after [r], when [r] returns. *)
Definition and_then {A B} (r : run A) (k : A -> console -> run B) : run B :=
  match r with
  | Returns a c => k a c
  | Raises s c => Raises s c
  end.

(** [print(s)] *)
Definition print (s : str) (c : console) : console :=
  {| stdin := stdin c; stdout := stdout c ++ s ++ [LF] |}.

(** [input(prompt)]: at the end of the input it raises [EOFError]. *)
Definition input (prompt : str) (c : console) : run str :=
  let out := stdout c ++ prompt in
  match stdin c with
  | [] => Raises EOFError {| stdin := []; stdout := out |}
  | line :: rest => Returns line {| stdin := rest; stdout := out |}
  end.

(** [str.upper] is the interpreter's, as the character database is; the
    law holds of it because no case mapping gives or drops a [#]. *)
Class Casing := {
  upper : str -> str;
  upper_hash : forall s, upper s = [35] <-> s = [35]
}.

(** The upper case of the ASCII letters. *)
Definition ascii_upper (s : str) : str :=
  map (fun c => if (97 <=? c) && (c <=? 122) then c - 32 else c) s.

#[program] Definition ascii_casing : Casing := {| upper := ascii_upper |}.
Next Obligation.
  intros s. split; [|by intros ->].
  destruct s as [|c [|c' s']]; try done. unfold ascii_upper. simpl.
  destruct ((97 <=? c) && (c <=? 122)) eqn:E; intros [= H]; [|by subst].
  apply andb_true_iff in E as [E1 E2]. apply Z.leb_le in E1. lia.
Qed.

(** The table names as the prompts and messages show them. *)
Definition key_name (k : key) : str :=
  match k with
  | K1 => lit "C1"
  | K2 => lit "C2"
  end.

Section Console.
Context `{U : UnicodeDB} `{C : Casing}.

(** The loop over the tokens of a line, the same in
    [collect_numbers_from_input] and in [delete_entry]: a digit token is
    added to [nums], any other is reported and passed over. The result is
    with the text printed. *)
Fixpoint number_tokens (toks : list str) (nums : list Z) (out : str)
  : result (list Z) * str :=
  match toks with
  | [] => (Ret nums, out)
  | tok :: r =>
    if isdigit tok then
      match int tok with
      | Ret n => number_tokens r (nums ++ [n]) out
      | Raise e => (Raise e, out)
      end
    else number_tokens r nums (out ++ lit "  ⚠️ 跳过非数字项：" ++ tok ++ [LF])
  end.

(** The [while True] loop of [collect_numbers_from_input], a turn for
    each line typed: the end of the input ends it as [#] does. *)
Fixpoint collect_loop (ins : list str) (out : str) (nums : list Z) : run (list Z) :=
  match ins with
  | [] => Returns nums {| stdin := []; stdout := out |}
  | line :: rest =>
    let line := strip line in
    if bool_decide (upper line = lit "#") then
      Returns nums {| stdin := rest; stdout := out |}
    else if bool_decide (line = []) then collect_loop rest out nums
    else
      match number_tokens (split line) nums out with
      | (Ret nums, out) => collect_loop rest out nums
      | (Raise e, out) => Raises (Error e) {| stdin := rest; stdout := out |}
      end
  end.

Definition collect_numbers_from_input (table_name : str) (c : console) : run (list Z) :=
  let c := print (lit "请输入本赛季 " ++ table_name ++ lit " 已使用的车号（输入 # 结束）：") c in
  collect_loop (stdin c) (stdout c) [].

(** The loop that asks for a table, in [ask_single_edit] and in
    [delete_entry] with their own texts: it goes on until [1] or [2] is
    typed. *)
Fixpoint choose_table (prompt invalid : str) (ins : list str) (out : str) : run key :=
  match ins with
  | [] => Raises EOFError {| stdin := []; stdout := out ++ prompt |}
  | line :: rest =>
    let out := out ++ prompt in
    let key := strip line in
    if bool_decide (key = lit "1") then Returns K1 {| stdin := rest; stdout := out |}
    else if bool_decide (key = lit "2") then Returns K2 {| stdin := rest; stdout := out |}
    else choose_table prompt invalid rest (out ++ invalid ++ [LF])
  end.

(** The body of the second loop of [ask_single_edit] on the tokens typed:
    the entry at a [break], [None] where the loop goes on. *)
Definition single_edit_parts (parts : list str) : result (option entry) :=
  let len := Z.of_nat (length parts) in
  let part (i : nat) := nth i parts [] in
  if isdigit (part 0%nat) then
    if (2 <=? len) && isdigit (part 1%nat) then
      car_no ← int (part 0%nat); new_unused ← int (part 1%nat);
      Ret (Some (car_no, new_unused, []))
    else if len =? 1 then
      car_no ← int (part 0%nat); Ret (Some (car_no, 0, []))
    else Ret None
  else
    let name := part 0%nat in
    if (2 <=? len) && isdigit (part 1%nat) then
      car_no ← int (part 1%nat);
      if (3 <=? len) && isdigit (part 2%nat) then
        new_unused ← int (part 2%nat); Ret (Some (car_no, new_unused, name))
      else Ret (Some (car_no, 0, name))
    else Ret None.

Definition entry_prompt : str :=
  lit "请输入（可选姓名）车号（可选闲置数），例如：“张三 15 2”/“张三 15”/“15 2”/“15”：".

Fixpoint ask_entry (ins : list str) (out : str) : run entry :=
  match ins with
  | [] => Raises EOFError {| stdin := []; stdout := out ++ entry_prompt |}
  | line :: rest =>
    let out := out ++ entry_prompt in
    let entry := strip line in
    if bool_decide (entry = []) then ask_entry rest (out ++ lit "输入不能为空。" ++ [LF])
    else
      match single_edit_parts (split entry) with
      | Ret (Some e) => Returns e {| stdin := rest; stdout := out |}
      | Ret None => ask_entry rest (out ++ lit "输入格式错误，请重试。" ++ [LF])
      | Raise e => Raises (Error e) {| stdin := rest; stdout := out |}
      end
  end.

(** The result is [key] and the entry [(car_no, new_unused, name)]. *)
Definition ask_single_edit (c : console) : run (key * entry) :=
  and_then
    (choose_table (lit "请选择表（1 或 2）：") (lit "无效表名，请输入 1 或 2。")
                  (stdin c) (stdout c))
    (fun key c =>
       and_then (ask_entry (stdin c) (stdout c))
                (fun e c => Returns (key, e) c)).

Fixpoint choose_mode_loop (ins : list str) (out : str) : run str :=
  match ins with
  | [] => Raises EOFError {| stdin := []; stdout := out ++ lit "请输入 1 / 2 / 3 / 4 / 5：" |}
  | line :: rest =>
    let out := out ++ lit "请输入 1 / 2 / 3 / 4 / 5：" in
    let choice := strip line in
    if bool_decide (choice ∈ [lit "1"; lit "2"; lit "3"; lit "4"; lit "5"]) then
      Returns choice {| stdin := rest; stdout := out |}
    else choose_mode_loop rest (out ++ lit "无效输入，请重新输入。" ++ [LF])
  end.

Definition choose_mode (c : console) : run str :=
  let c := print (lit "请选择操作模式：") c in
  let c := print (lit "1. 新赛季车号统计更新") c in
  let c := print (lit "2. 季中转会车号统计更新") c in
  let c := print (lit "3. 单个车号信息 增加/修改（支持姓名）") c in
  let c := print (lit "4. 车号删除") c in
  let c := print (lit "5. 只运行写出并退出") c in
  choose_mode_loop (stdin c) (stdout c).

(** [re.split(r"[,\s]+", s)]: the pieces between the runs of commas and
    blanks; [in_sep] says that the scan is in such a run, [cur] is the
    piece being read, last character first. *)
Definition is_list_sep (c : Z) : bool := (c =? 44) || isspace_char c.

Fixpoint list_split_from (s : str) (in_sep : bool) (cur : str) : list str :=
  match s with
  | [] => [rev cur]
  | c :: r =>
    if is_list_sep c then
      if in_sep then list_split_from r true []
      else rev cur :: list_split_from r true []
    else list_split_from r false (c :: cur)
  end.

Definition list_split (s : str) : list str := list_split_from s false [].

(** [delete_entry] with its prompts; the deletion itself is
    [delete_entry] above. *)
Definition delete_entry_console (tables : roster) (c : console) : run roster :=
  and_then
    (choose_table (lit "请选择要删除的表（1 或 2）：") (lit "无效输入，请输入 1 或 2。")
                  (stdin c) (stdout c))
    (fun key c =>
       and_then
         (input (lit "请输入要删除的车号（可多个，空格或逗号分隔，例如：15 23,68）：") c)
         (fun raw c =>
            let raw := strip raw in
            let tokens := filter (fun t => t <> []) (list_split raw) in
            match number_tokens tokens [] (stdout c) with
            | (Raise e, out) => Raises (Error e) {| stdin := stdin c; stdout := out |}
            | (Ret nums, out) =>
              let c := {| stdin := stdin c; stdout := out |} in
              match delete_entry tables key nums with
              | (_, None) =>
                Returns tables (print (lit "⚠️ 未输入有效车号，取消删除。") c)
              | (tables, Some removed) =>
                let listed := join (lit ", ") (map str_of_int nums) in
                if 0 <? removed then
                  Returns tables
                    (print (lit "✅ 已从 " ++ key_name key ++ lit " 删除 "
                            ++ str_of_int removed ++ lit " 条记录（车号：" ++ listed
                            ++ lit "）。") c)
                else
                  Returns tables
                    (print (lit "⚠️ " ++ key_name key ++ lit " 中未找到指定车号："
                            ++ listed) c)
              end
            end)).

(** ** The program *)

(** The roster file and its backup, as decoded text. *)
Record disk := { roster_file : str; backup_file : option str }.

Definition file_path : str := lit "C:/Users/用户名/Desktop/RMC/车号统计/车号记录.txt".

(** [base + "_backup" + ext] for that path. *)
Definition backup_path : str :=
  lit "C:/Users/用户名/Desktop/RMC/车号统计/车号记录_backup.txt".

Definition MAX_UNUSED : Z := 3.

(** The end of a run: the backup of the file as it was, the file written
    anew, the message. *)
Definition persist (content : str) (tables : roster) (c : console) : disk * console :=
  ({| roster_file := write_tables_to_txt tables; backup_file := Some content |},
   print (lit "✅ 已写入：" ++ file_path ++ [LF] ++ lit "📂 备份文件：" ++ backup_path) c).

Definition finish (content : str) (r : run roster) : option signal * disk * console :=
  match r with
  | Raises s c => (Some s, {| roster_file := content; backup_file := None |}, c)
  | Returns tables c =>
    let '(d, c) := persist content tables c in (None, d, c)
  end.

(** The two bulk updates, modes 1 and 2. *)
Definition bulk_update (tables : roster) (increment_absent : bool) (c : console)
  : run roster :=
  and_then (collect_numbers_from_input (lit "C1") c) (fun input_c1 c =>
  and_then (collect_numbers_from_input (lit "C2") c) (fun input_c2 c =>
    let tables :=
      table_set tables K1
        (update_table_rows (table_get tables K1) input_c1 MAX_UNUSED increment_absent) in
    let tables :=
      table_set tables K2
        (update_table_rows (table_get tables K2) input_c2 MAX_UNUSED increment_absent) in
    Returns tables c)).

(** The main program on the content of the roster file and the console:
    how it ends ([None] for the end of the script), the files, the
    console. *)
Definition main (content : str) (c : console) : option signal * disk * console :=
  let untouched := {| roster_file := content; backup_file := None |} in
  match read_tables_from_txt content with
  | Raise e => (Some (Error e), untouched, c)
  | Ret tables =>
    match choose_mode c with
    | Raises s c => (Some s, untouched, c)
    | Returns mode c =>
      if bool_decide (mode = lit "1") then finish content (bulk_update tables true c)
      else if bool_decide (mode = lit "2") then finish content (bulk_update tables false c)
      else if bool_decide (mode = lit "3") then
        finish content
          (and_then (ask_single_edit c)
             (fun '(key, (car_no, new_unused, name)) c =>
                Returns (set_single_entry tables key car_no new_unused name MAX_UNUSED) c))
      else if bool_decide (mode = lit "4") then
        finish content (delete_entry_console tables c)
      else if bool_decide (mode = lit "5") then
        let '(d, c) := persist content tables c in (Some (SystemExit 0), d, c)
      else finish content (Returns tables c)
    end
  end.

End Console.

(** * Further specification *)


(** [t] is a piece of [s]. *)
Definition infix (t s : str) : Prop := exists a b, s = a ++ t ++ b.


(** The text with the line ends of Windows: every [\n] as [\r\n]. *)
Fixpoint to_crlf (s : str) : str :=
  match s with
  | [] => []
  | c :: r => if c =? LF then CR :: LF :: to_crlf r else c :: to_crlf r
  end.

(** The text with the line ends of the old Mac OS: every [\n] as [\r]. *)
Definition to_cr (s : str) : str := map (fun c => if c =? LF then CR else c) s.

(** Tables of records that the text format can carry. *)
Definition writable_tables `{U : UnicodeDB} (tables : roster) : Prop :=
  Forall writable (C1 tables) /\ Forall writable (C2 tables).


(** The digit typed for a table. *)
Definition key_digit (k : key) : str :=
  match k with
  | K1 => lit "1"
  | K2 => lit "2"
  end.

(** ** The sequential layout *)





(** * Properties *)

(** ** Evaluation of the character database on literals *)

Ltac eval_lits :=
  repeat match goal with
  | |- context [lit ?s] =>
    let v := eval vm_compute in (lit s) in change (lit s) with v
  end.

Ltac numeric_eval :=
  repeat match goal with
  | |- context [numeric ?c] =>
    first [ rewrite (numeric_ascii_digit c) by lia
          | rewrite (numeric_ascii_other c) by lia
          | rewrite (numeric_cjk c) by lia
          | rewrite numeric_superscript_two ]
  end.

Ltac run_tokenizer :=
  eval_lits; cbv [parse_entry_tokens isdigit isdigit_char forallb int
                  decimal_value length nth mbind result_bind];
  simpl Z.of_nat; numeric_eval; simpl.

Section TokenizerFacts.
Context `{U : UnicodeDB}.

Lemma parse_nil : parse_entry_tokens [] = Ret None.
Proof. reflexivity. Qed.

Lemma parse_digit_then_other t0 t1 rest :
  isdigit t0 = true -> isdigit t1 = false ->
  parse_entry_tokens (t0 :: t1 :: rest) = Ret None.
Proof.
  intros H0 H1. unfold parse_entry_tokens. cbn [nth length].
  rewrite H0, H1.
  destruct (Z.of_nat (S (S (length rest))) =? 0) eqn:E0; [apply Z.eqb_eq in E0; lia|].
  rewrite andb_false_r.
  destruct (Z.of_nat (S (S (length rest))) =? 1) eqn:E1; [apply Z.eqb_eq in E1; lia|].
  reflexivity.
Qed.

Lemma parse_name_alone t0 :
  isdigit t0 = false -> parse_entry_tokens [t0] = Ret None.
Proof.
  intros H0. unfold parse_entry_tokens. cbn [nth length]. rewrite H0. reflexivity.
Qed.

Lemma parse_name_then_other t0 t1 rest :
  isdigit t0 = false -> isdigit t1 = false ->
  parse_entry_tokens (t0 :: t1 :: rest) = Ret None.
Proof.
  intros H0 H1. unfold parse_entry_tokens. cbn [nth length].
  rewrite H0, H1, andb_false_r.
  destruct (Z.of_nat (S (S (length rest))) =? 0); reflexivity.
Qed.

Lemma parse_number_alone t0 n :
  isdigit t0 = true -> int t0 = Ret n ->
  parse_entry_tokens [t0] = Ret (Some (n, 0, [])).
Proof.
  intros H0 Hn. unfold parse_entry_tokens. cbn [nth length].
  rewrite H0, Hn. reflexivity.
Qed.

Lemma parse_number_idle t0 t1 rest n u :
  isdigit t0 = true -> isdigit t1 = true -> int t0 = Ret n -> int t1 = Ret u ->
  parse_entry_tokens (t0 :: t1 :: rest) = Ret (Some (n, u, [])).
Proof.
  intros H0 H1 Hn Hu. unfold parse_entry_tokens. cbn [nth length].
  rewrite H0, H1, Hn, Hu.
  destruct (Z.of_nat (S (S (length rest))) =? 0) eqn:E0; [apply Z.eqb_eq in E0; lia|].
  replace (2 <=? Z.of_nat (S (S (length rest)))) with true
    by (symmetry; apply Z.leb_le; lia).
  reflexivity.
Qed.

Lemma parse_name_number t0 t1 n :
  isdigit t0 = false -> isdigit t1 = true -> int t1 = Ret n ->
  parse_entry_tokens [t0; t1] = Ret (Some (n, 0, t0)).
Proof.
  intros H0 H1 Hn. unfold parse_entry_tokens. cbn [nth length].
  rewrite H0, H1, Hn. reflexivity.
Qed.

Lemma parse_name_number_other t0 t1 t2 rest n :
  isdigit t0 = false -> isdigit t1 = true -> isdigit t2 = false ->
  int t1 = Ret n ->
  parse_entry_tokens (t0 :: t1 :: t2 :: rest) = Ret (Some (n, 0, t0)).
Proof.
  intros H0 H1 H2 Hn. unfold parse_entry_tokens. cbn [nth length].
  rewrite H0, H1, H2, Hn, andb_false_r.
  destruct (Z.of_nat (S (S (S (length rest)))) =? 0) eqn:E0; [apply Z.eqb_eq in E0; lia|].
  replace (2 <=? Z.of_nat (S (S (S (length rest))))) with true
    by (symmetry; apply Z.leb_le; lia).
  reflexivity.
Qed.

Lemma parse_name_number_idle t0 t1 t2 rest n u :
  isdigit t0 = false -> isdigit t1 = true -> isdigit t2 = true ->
  int t1 = Ret n -> int t2 = Ret u ->
  parse_entry_tokens (t0 :: t1 :: t2 :: rest) = Ret (Some (n, u, t0)).
Proof.
  intros H0 H1 H2 Hn Hu. unfold parse_entry_tokens. cbn [nth length].
  rewrite H0, H1, H2, Hn, Hu.
  destruct (Z.of_nat (S (S (S (length rest)))) =? 0) eqn:E0; [apply Z.eqb_eq in E0; lia|].
  replace (2 <=? Z.of_nat (S (S (S (length rest))))) with true
    by (symmetry; apply Z.leb_le; lia).
  replace (3 <=? Z.of_nat (S (S (S (length rest))))) with true
    by (symmetry; apply Z.leb_le; lia).
  reflexivity.
Qed.

(** C8. The tokenizer resolves a token list by its rules in order: the
    four examples; the empty list is no match; a digit token followed by a
    token that is not one is no match; a name that no digit token follows
    is no match; and an idle count that is absent is 0. *)
Theorem tokenizer_resolution :
  parse_entry_tokens [lit "张三"; lit "15"; lit "2"] = Ret (Some (15, 2, lit "张三"))
  /\ parse_entry_tokens [lit "15"; lit "2"] = Ret (Some (15, 2, []))
  /\ parse_entry_tokens [lit "15"] = Ret (Some (15, 0, []))
  /\ parse_entry_tokens [lit "张三"; lit "abc"] = Ret None
  /\ parse_entry_tokens [] = Ret None
  /\ (forall t0 t1 rest, isdigit t0 = true -> isdigit t1 = false ->
        parse_entry_tokens (t0 :: t1 :: rest) = Ret None)
  /\ (forall t0, isdigit t0 = false -> parse_entry_tokens [t0] = Ret None)
  /\ (forall t0 t1 rest, isdigit t0 = false -> isdigit t1 = false ->
        parse_entry_tokens (t0 :: t1 :: rest) = Ret None)
  /\ (forall t0 n, isdigit t0 = true -> int t0 = Ret n ->
        parse_entry_tokens [t0] = Ret (Some (n, 0, [])))
  /\ (forall t0 t1 n, isdigit t0 = false -> isdigit t1 = true -> int t1 = Ret n ->
        parse_entry_tokens [t0; t1] = Ret (Some (n, 0, t0)))
  /\ (forall t0 t1 t2 rest n,
        isdigit t0 = false -> isdigit t1 = true -> isdigit t2 = false ->
        int t1 = Ret n ->
        parse_entry_tokens (t0 :: t1 :: t2 :: rest) = Ret (Some (n, 0, t0))).
Proof.
  split; [run_tokenizer; reflexivity|].
  split; [run_tokenizer; reflexivity|].
  split; [run_tokenizer; reflexivity|].
  split; [run_tokenizer; reflexivity|].
  split; [reflexivity|].
  split; [exact parse_digit_then_other|].
  split; [exact parse_name_alone|].
  split; [exact parse_name_then_other|].
  split; [exact parse_number_alone|].
  split; [exact parse_name_number|].
  exact parse_name_number_other.
Qed.




(** C9. The tokenizer raises on a token that [isdigit] accepts and [int]
    refuses: the superscript two alone, and so does the reader on a file
    that holds it as a record line. *)
Theorem tokenizer_raises_on_superscript_digit :
  parse_entry_tokens [[0xB2]] = Raise ValueError
  /\ read_tables_from_txt (lit "C1" ++ [LF] ++ [0xB2] ++ [LF]) = Raise ValueError.
Proof.
  split.
  - run_tokenizer. reflexivity.
  - eval_lits. cbv -[numeric]. numeric_eval. reflexivity.
Qed.

End TokenizerFacts.


(** ** The stable sort *)

Section SortFacts.

Lemma insert_by_number_perm e l : insert_by_number e l ≡ₚ e :: l.
Proof.
  induction l as [|x r IH]; simpl; [done|].
  destruct (num_of e <=? num_of x); [done|].
  rewrite IH. apply Permutation_swap.
Qed.

Lemma sorted_perm rows : sorted rows ≡ₚ rows.
Proof.
  induction rows as [|e r IH]; simpl; [done|].
  rewrite insert_by_number_perm. by rewrite IH.
Qed.

Lemma elem_of_sorted e rows : e ∈ sorted rows ↔ e ∈ rows.
Proof. by rewrite sorted_perm. Qed.

Lemma length_sorted rows : length (sorted rows) = length rows.
Proof. by rewrite sorted_perm. Qed.

Lemma insert_by_number_ascending e l :
  ascending l -> ascending (insert_by_number e l).
Proof.
  unfold ascending. induction l as [|x r IH]; simpl; intros Hs.
  - repeat constructor.
  - destruct (num_of e <=? num_of x) eqn:E.
    + apply Z.leb_le in E. simpl. constructor; [done|].
      apply StronglySorted_cons in Hs as [Hx _].
      constructor; [done|].
      eapply Forall_impl; [exact Hx|]. simpl. intros; lia.
    + apply Z.leb_gt in E. simpl.
      apply StronglySorted_cons in Hs as [Hx Hr].
      constructor; [by apply IH|].
      assert (Hp : fmap num_of (insert_by_number e r) ≡ₚ num_of e :: fmap num_of r).
      { change (num_of e :: fmap num_of r) with (fmap num_of (e :: r)).
        apply fmap_Permutation, insert_by_number_perm. }
      rewrite Hp. constructor; [lia|done].
Qed.

Lemma sorted_ascending rows : ascending (sorted rows).
Proof.
  induction rows as [|e r IH]; simpl.
  - constructor.
  - by apply insert_by_number_ascending.
Qed.

Lemma ascending_NoDup_strict (l : list Z) :
  StronglySorted Z.le l -> NoDup l -> StronglySorted Z.lt l.
Proof.
  induction 1 as [|x l Hs IH Hx]; intros Hnd; [constructor|].
  apply NoDup_cons in Hnd as [Hnin Hnd].
  constructor; [by apply IH|].
  apply Forall_forall. intros y Hy.
  rewrite Forall_forall in Hx. specialize (Hx y Hy).
  assert (x <> y) by (intros ->; done). lia.
Qed.

Lemma strict_NoDup (l : list Z) : StronglySorted Z.lt l -> NoDup l.
Proof.
  induction 1 as [|x l Hs IH Hx]; constructor; [|done].
  intros Hin. rewrite Forall_forall in Hx. specialize (Hx x Hin). lia.
Qed.

Lemma strict_ascending (l : list Z) : StronglySorted Z.lt l -> StronglySorted Z.le l.
Proof.
  induction 1 as [|x l Hs IH Hx]; constructor; [done|].
  eapply Forall_impl; [exact Hx|]. simpl. intros; lia.
Qed.

Lemma sorted_strictly_ascending rows :
  NoDup (fmap num_of rows) -> strictly_ascending (sorted rows).
Proof.
  intros Hnd. apply ascending_NoDup_strict; [apply sorted_ascending|].
  by rewrite sorted_perm.
Qed.

(** A list in ascending order is left as it is. *)
Lemma sorted_id rows : ascending rows -> sorted rows = rows.
Proof.
  unfold ascending. induction rows as [|e r IH]; simpl; intros Hs; [done|].
  apply StronglySorted_cons in Hs as [Hx Hr].
  rewrite IH by done.
  destruct r as [|x r']; simpl; [done|].
  apply Forall_cons in Hx as [Hex _].
  by replace (num_of e <=? num_of x) with true by (symmetry; apply Z.leb_le; lia).
Qed.

Lemma strictly_ascending_by_number rows :
  strictly_ascending rows ->
  StronglySorted (fun a b : entry => num_of a < num_of b) rows.
Proof.
  unfold strictly_ascending. induction rows as [|e r IH]; simpl; intros Hs.
  - constructor.
  - apply StronglySorted_cons in Hs as [Hx Hr].
    constructor; [by apply IH|].
    apply Forall_forall. intros y Hy.
    rewrite Forall_forall in Hx. apply Hx.
    apply list_elem_of_fmap. by exists y.
Qed.

Lemma strictly_ascending_unique rows1 rows2 :
  strictly_ascending rows1 -> strictly_ascending rows2 ->
  rows1 ≡ₚ rows2 -> rows1 = rows2.
Proof.
  unfold strictly_ascending. intros H1 H2 Hp.
  apply (StronglySorted_unique_strong (fun a b : entry => num_of a < num_of b));
    [intros; lia| | |done].
  - by apply strictly_ascending_by_number.
  - by apply strictly_ascending_by_number.
Qed.

End SortFacts.

(** ** The working dictionary *)

Section DictFacts.
Implicit Types (d : gmap Z (Z * str)) (rows : list entry).

Lemma elem_of_rows_of_dict d n u nm :
  (n, u, nm) ∈ rows_of_dict d ↔ d !! n = Some (u, nm).
Proof.
  unfold rows_of_dict. rewrite list_elem_of_fmap. split.
  - intros ([n' [u' nm']] & Heq & Hin). simplify_eq.
    by apply elem_of_map_to_list in Hin.
  - intros Hl. exists (n, (u, nm)). split; [done|].
    by apply elem_of_map_to_list.
Qed.

Lemma rows_of_dict_numbers d : num_of <$> rows_of_dict d = (map_to_list d).*1.
Proof.
  unfold rows_of_dict. rewrite <- list_fmap_compose.
  apply list_fmap_ext. by intros i [n [u nm]] _.
Qed.

Lemma rows_of_dict_NoDup d : NoDup (num_of <$> rows_of_dict d).
Proof. rewrite rows_of_dict_numbers. apply NoDup_fst_map_to_list. Qed.

Lemma sorted_rows_of_dict_strict d : strictly_ascending (sorted (rows_of_dict d)).
Proof. apply sorted_strictly_ascending, rows_of_dict_NoDup. Qed.

Lemma elem_of_sorted_rows_of_dict d n u nm :
  (n, u, nm) ∈ sorted (rows_of_dict d) ↔ d !! n = Some (u, nm).
Proof. by rewrite elem_of_sorted, elem_of_rows_of_dict. Qed.

(** In a strictly ascending table a number has one record. *)
Lemma strictly_ascending_functional rows e1 e2 :
  strictly_ascending rows -> e1 ∈ rows -> e2 ∈ rows ->
  num_of e1 = num_of e2 -> e1 = e2.
Proof.
  intros Hs H1 H2 Heq.
  apply strict_NoDup in Hs.
  apply list_elem_of_lookup in H1 as [i Hi], H2 as [j Hj].
  assert (i = j) as ->; [|congruence].
  eapply NoDup_lookup; [exact Hs| |].
  - by rewrite list_lookup_fmap, Hi.
  - by rewrite list_lookup_fmap, Hj, Heq.
Qed.

Lemma dict_of_rows_foldl rows : dict_of_rows rows = foldl insert_row ∅ rows.
Proof. reflexivity. Qed.

Lemma foldl_insert_row_lookup rows : forall d n,
  foldl insert_row d rows !! n
  = match dict_of_rows rows !! n with
    | Some v => Some v
    | None => d !! n
    end.
Proof.
  induction rows as [|[[m u] nm] r IH] using rev_ind; intros d n.
  - rewrite dict_of_rows_foldl. simpl. by rewrite lookup_empty.
  - rewrite dict_of_rows_foldl, !foldl_app. simpl.
    destruct (decide (m = n)) as [->|Hne].
    + by rewrite !lookup_insert_eq.
    + rewrite !lookup_insert_ne by done. apply IH.
Qed.

Lemma dict_of_rows_snoc rows n u nm :
  dict_of_rows (rows ++ [(n, u, nm)]) = <[n := (u, nm)]> (dict_of_rows rows).
Proof. unfold dict_of_rows. by rewrite foldl_app. Qed.

Lemma dict_of_rows_cons_lookup n u nm rows k :
  dict_of_rows ((n, u, nm) :: rows) !! k
  = match dict_of_rows rows !! k with
    | Some v => Some v
    | None => if decide (n = k) then Some (u, nm) else None
    end.
Proof.
  rewrite dict_of_rows_foldl. simpl. rewrite foldl_insert_row_lookup.
  destruct (dict_of_rows rows !! k); [done|].
  by rewrite lookup_insert, lookup_empty.
Qed.

(** The keys of the dictionary are the numbers of the table. *)
Lemma dict_of_rows_None rows n :
  dict_of_rows rows !! n = None ↔ n ∉ num_of <$> rows.
Proof.
  induction rows as [|[[m u] nm] r IH].
  - rewrite dict_of_rows_foldl. simpl. rewrite lookup_empty. split; [|done].
    intros _. apply not_elem_of_nil.
  - rewrite dict_of_rows_cons_lookup. csimpl. rewrite not_elem_of_cons.
    destruct (dict_of_rows r !! n) eqn:E.
    + split; [done|]. intros [_ Hn]. apply IH in Hn. done.
    + destruct IH as [IH _]. specialize (IH eq_refl).
      case_decide; subst.
      * split; [done|]. intros [Hn _]. by destruct Hn.
      * split; [|done]. intros _. split; [|done]. unfold num_of. simpl. congruence.
Qed.

Lemma dict_of_rows_Some_elem rows n u nm :
  dict_of_rows rows !! n = Some (u, nm) -> (n, u, nm) ∈ rows.
Proof.
  induction rows as [|[[m u'] nm'] r IH].
  - rewrite dict_of_rows_foldl. simpl. by rewrite lookup_empty.
  - rewrite dict_of_rows_cons_lookup.
    destruct (dict_of_rows r !! n) eqn:E.
    + intros [= ->]. right. by apply IH.
    + case_decide; [|done]. intros [= -> ->]. subst. left.
Qed.

(** Where the numbers of the table are distinct the dictionary holds
    exactly its records. *)
Lemma dict_of_rows_unique rows n u nm :
  NoDup (num_of <$> rows) ->
  dict_of_rows rows !! n = Some (u, nm) ↔ (n, u, nm) ∈ rows.
Proof.
  intros Hnd. split; [apply dict_of_rows_Some_elem|].
  induction rows as [|[[m u'] nm'] r IH]; [by intros ?%elem_of_nil|].
  csimpl in Hnd. apply NoDup_cons in Hnd as [Hnin Hnd].
  rewrite dict_of_rows_cons_lookup. intros Hin.
  apply elem_of_cons in Hin as [Heq|Hin].
  - simplify_eq. apply dict_of_rows_None in Hnin.
    unfold num_of in Hnin. simpl in Hnin. rewrite Hnin.
    by rewrite decide_True.
  - by rewrite (IH Hnd Hin).
Qed.

Lemma rows_of_dict_of_rows rows :
  NoDup (num_of <$> rows) -> rows_of_dict (dict_of_rows rows) ≡ₚ rows.
Proof.
  intros Hnd. apply NoDup_Permutation.
  - eapply NoDup_fmap_1, rows_of_dict_NoDup.
  - by eapply NoDup_fmap_1.
  - intros [[n u] nm]. rewrite elem_of_rows_of_dict. by apply dict_of_rows_unique.
Qed.

End DictFacts.

(** ** The loops of [update_table_rows] *)

Section ReconcileFacts.
Implicit Types (d : gmap Z (Z * str)) (rows : list entry) (S : gset Z).

Lemma increment_loop_spec S max_unused ks :
  NoDup ks -> forall d del d' del',
  foldl (increment_step S max_unused) (d, del) ks = (d', del') ->
  (forall n, d' !! n =
     if decide (n ∈ ks /\ n ∉ S) then
       match d !! n with
       | Some v => match aged max_unused v with Some v' => Some v' | None => Some v end
       | None => None
       end
     else d !! n)
  /\ (forall n, n ∈ del' ↔
        (n ∈ del \/
         (n ∈ ks /\ (n ∉ S) /\ exists v, d !! n = Some v /\ aged max_unused v = None))).
Proof.
  induction 1 as [|k ks Hk Hnd IH]; intros d del d' del' Hf.
  - simpl in Hf. simplify_eq. split.
    + intros n. rewrite decide_False; [done|]. intros [?%elem_of_nil _]. done.
    + intros n. split; [auto|]. intros [?|[?%elem_of_nil _]]; done.
  - cbn [foldl] in Hf.
    destruct (increment_step S max_unused (d, del) k) as [d1 del1] eqn:Hstep.
    destruct (IH _ _ _ _ Hf) as [IHd IHdel]. clear IH Hf.
    assert (Hd1 : forall n, n <> k -> d1 !! n = d !! n).
    { intros n Hn. unfold increment_step in Hstep.
      case_bool_decide; [|by simplify_eq].
      destruct (d !! k) as [[u nm]|]; [|by simplify_eq].
      cbv zeta in Hstep. destruct (u + 1 >=? max_unused); simplify_eq; [done|].
      by rewrite lookup_insert_ne. }
    split.
    + intros n. rewrite IHd.
      destruct (decide (n = k)) as [->|Hne].
      * rewrite (decide_False (P := k ∈ ks /\ _)) by (intros [? _]; done).
        unfold increment_step in Hstep. case_bool_decide as HS.
        -- rewrite decide_True by (split; [left|done]).
           destruct (d !! k) as [[u nm]|] eqn:Hdk; [|by simplify_eq].
           cbv zeta in Hstep. unfold aged. simpl.
           destruct (u + 1 >=? max_unused); simplify_eq; [done|].
           by rewrite lookup_insert_eq.
        -- rewrite decide_False by (intros [_ ?]; done). by simplify_eq.
      * rewrite Hd1 by done.
        destruct (decide (n ∈ ks /\ n ∉ S)) as [[? ?]|Hn].
        -- by rewrite decide_True by (split; [by right|done]).
        -- rewrite decide_False; [done|].
           intros [[?|?]%elem_of_cons ?]; [done|]. by apply Hn.
    + intros n. rewrite IHdel. clear IHd IHdel.
      unfold increment_step in Hstep.
      destruct (decide (n = k)) as [->|Hne].
      * case_bool_decide as HS.
        -- destruct (d !! k) as [[u nm]|] eqn:Hdk.
           ++ cbv zeta in Hstep.
              destruct (u + 1 >=? max_unused) eqn:Hu; simplify_eq.
              ** split; [|intros _; left; apply elem_of_app; right; left].
                 intros _. right. split; [left|]. split; [done|].
                 exists (u, nm). split; [done|]. unfold aged. simpl. by rewrite Hu.
              ** split; [intros [?|[? _]]; [by left|done]|].
                 intros [?|(_ & _ & v & Hv & Hag)]; [by left|].
                 simplify_eq. unfold aged in Hag. simpl in Hag. by rewrite Hu in Hag.
           ++ simplify_eq. split; [intros [?|[? _]]; [by left|done]|].
              intros [?|(_ & _ & v & Hv & _)]; [by left|done].
        -- simplify_eq. split; [intros [?|[? _]]; [by left|done]|].
           intros [?|(_ & ? & _)]; [by left|done].
      * assert (Hdel1 : n ∈ del1 ↔ n ∈ del).
        { case_bool_decide; [|by simplify_eq].
          destruct (d !! k) as [[u nm]|]; [|by simplify_eq].
          cbv zeta in Hstep. destruct (u + 1 >=? max_unused); simplify_eq; [|done].
          rewrite elem_of_app, list_elem_of_singleton.
          split; [intros [?|?]; done|by left]. }
        rewrite Hdel1, Hd1 by done. rewrite elem_of_cons. split.
        -- intros [?|(? & ? & ?)]; [by left|right; auto].
        -- intros [?|([?|?] & ? & ?)]; [by left|done|right; auto].
Qed.

Lemma delete_loop_lookup del : forall d n,
  foldl (fun d num => delete num d) d del !! n
  = if decide (n ∈ del) then None else d !! n.
Proof.
  induction del as [|k del IH]; intros d n; cbn [foldl].
  - rewrite decide_False; [done|]. apply not_elem_of_nil.
  - rewrite IH. destruct (decide (n = k)) as [->|Hne].
    + rewrite lookup_delete_eq. rewrite (decide_True (P := k ∈ k :: del)) by left.
      by case_decide.
    + rewrite lookup_delete_ne by done.
      destruct (decide (n ∈ del)).
      * by rewrite decide_True by (by right).
      * rewrite decide_False; [done|]. intros [?|?]%elem_of_cons; done.
Qed.

Lemma report_loop_lookup ks : forall d n,
  foldl report_step d ks !! n
  = if decide (n ∈ ks) then
      Some (0, match d !! n with Some v => v.2 | None => [] end)
    else d !! n.
Proof.
  induction ks as [|k ks IH]; intros d n; cbn [foldl].
  - rewrite decide_False; [done|]. apply not_elem_of_nil.
  - rewrite IH. clear IH.
    assert (Hk : report_step d k !! k
                 = Some (0, match d !! k with Some v => v.2 | None => [] end)).
    { unfold report_step. destruct (d !! k) as [[u nm]|]; by rewrite lookup_insert_eq. }
    assert (Hn : n <> k -> report_step d k !! n = d !! n).
    { intros Hne. unfold report_step.
      destruct (d !! k) as [[u nm]|]; by rewrite lookup_insert_ne. }
    destruct (decide (n = k)) as [->|Hne].
    + rewrite Hk. rewrite (decide_True (P := k ∈ k :: ks)) by left.
      by case_decide.
    + rewrite Hn by done.
      destruct (decide (n ∈ ks)).
      * by rewrite decide_True by (by right).
      * rewrite decide_False; [done|]. intros [?|?]%elem_of_cons; done.
Qed.

Lemma update_table_rows_final rows new_numbers max_unused increment_absent :
  update_table_rows rows new_numbers max_unused increment_absent
  = sorted (rows_of_dict (final_dict rows new_numbers max_unused increment_absent)).
Proof. reflexivity. Qed.

Lemma dict_in_order_lookup rows new_numbers max_unused increment_absent keys reported n :
  NoDup keys ->
  (forall k, k ∈ keys ↔ is_Some (dict_of_rows rows !! k)) ->
  (forall k, k ∈ reported ↔ k ∈ new_numbers) ->
  dict_in_order rows new_numbers max_unused increment_absent keys reported !! n
  = reconciled (dict_of_rows rows) new_numbers max_unused increment_absent n.
Proof.
  intros Hnd Hkeys HS. unfold dict_in_order, reconciled. cbv zeta.
  set (d := dict_of_rows rows) in *. set (S := list_to_set new_numbers : gset Z).
  rewrite report_loop_lookup.
  destruct increment_absent.
  - destruct (foldl (increment_step S max_unused) (d, []) keys)
      as [d' del'] eqn:Hf.
    apply increment_loop_spec in Hf as [Hd Hdel]; [|done].
    rewrite delete_loop_lookup, Hd.
    destruct (decide (n ∈ new_numbers)) as [Hin|Hnin].
    + rewrite decide_True by (by apply HS).
      rewrite decide_False.
      2:{ rewrite Hdel. intros [?%elem_of_nil|(_ & Hn & _)]; [done|].
          apply Hn. unfold S. by apply elem_of_list_to_set. }
      rewrite decide_False; [done|].
      intros [_ Hn]. apply Hn. unfold S. by apply elem_of_list_to_set.
    + rewrite decide_False by (by rewrite HS).
      assert (HnS : n ∉ S) by (unfold S; by rewrite elem_of_list_to_set).
      destruct (d !! n) as [v|] eqn:Hdn.
      * assert (Hk : n ∈ keys) by (apply Hkeys; by exists v).
        rewrite (decide_True (P := _ /\ _)) by done.
        destruct (aged max_unused v) as [v'|] eqn:Hag.
        -- rewrite decide_False; [done|]. rewrite Hdel.
           intros [?%elem_of_nil|(_ & _ & w & Hw & Hag')]; [done|].
           simplify_eq.
        -- rewrite decide_True; [done|]. rewrite Hdel. right.
           split; [done|]. split; [done|]. by exists v.
      * by repeat case_decide.
  - destruct (decide (n ∈ new_numbers)) as [Hin|Hnin].
    + by rewrite decide_True by (by apply HS).
    + rewrite decide_False by (by rewrite HS). by destruct (d !! n).
Qed.

Lemma final_dict_lookup rows new_numbers max_unused increment_absent n :
  final_dict rows new_numbers max_unused increment_absent !! n
  = reconciled (dict_of_rows rows) new_numbers max_unused increment_absent n.
Proof.
  unfold final_dict. apply dict_in_order_lookup.
  - apply NoDup_fst_map_to_list.
  - intros k. rewrite list_elem_of_fmap. split.
    + intros ([k' v] & -> & Hin). apply elem_of_map_to_list in Hin. by exists v.
    + intros [v Hv]. exists (k, v). split; [done|]. by apply elem_of_map_to_list.
  - intros k. by rewrite elem_of_elements, elem_of_list_to_set.
Qed.

(** The loops of [update_table_rows] end with the same dictionary in
    whatever order they visit the keys of the dictionary and the numbers of
    the set, as the dictionary and the set of the interpreter may give
    them. *)
Lemma iteration_order_immaterial rows new_numbers max_unused increment_absent
    keys reported :
  NoDup keys ->
  (forall k, k ∈ keys ↔ is_Some (dict_of_rows rows !! k)) ->
  (forall k, k ∈ reported ↔ k ∈ new_numbers) ->
  dict_in_order rows new_numbers max_unused increment_absent keys reported
  = final_dict rows new_numbers max_unused increment_absent.
Proof.
  intros Hnd Hkeys HS. apply map_eq. intros n.
  by rewrite dict_in_order_lookup, final_dict_lookup.
Qed.

Lemma elem_of_update_table_rows rows new_numbers max_unused increment_absent n u nm :
  (n, u, nm) ∈ update_table_rows rows new_numbers max_unused increment_absent
  ↔ reconciled (dict_of_rows rows) new_numbers max_unused increment_absent n
    = Some (u, nm).
Proof.
  by rewrite update_table_rows_final, elem_of_sorted_rows_of_dict, final_dict_lookup.
Qed.

Lemma update_table_rows_strict rows new_numbers max_unused increment_absent :
  strictly_ascending (update_table_rows rows new_numbers max_unused increment_absent).
Proof. rewrite update_table_rows_final. apply sorted_rows_of_dict_strict. Qed.

End ReconcileFacts.

(** ** Single upsert and bulk delete *)

Lemma geb_false a b : a < b -> (a >=? b) = false.
Proof. intros H. rewrite Z.geb_leb. apply Z.leb_gt. lia. Qed.

Lemma geb_true a b : b <= a -> (a >=? b) = true.
Proof. intros H. rewrite Z.geb_leb. apply Z.leb_le. lia. Qed.

Section UpsertDeleteFacts.
Implicit Types (d : gmap Z (Z * str)) (rows : list entry) (tables : roster).

Lemma table_get_set tables key rows : table_get (table_set tables key rows) key = rows.
Proof. by destruct key. Qed.

Lemma set_single_entry_rows tables key car_no new_unused name max_unused :
  table_get (set_single_entry tables key car_no new_unused name max_unused) key
  = sorted (rows_of_dict
      (upsert_dict (dict_of_rows (table_get tables key)) car_no new_unused name max_unused)).
Proof. unfold set_single_entry. by rewrite table_get_set. Qed.

Lemma upsert_dict_lookup_ne d car_no new_unused name max_unused n :
  n <> car_no -> upsert_dict d car_no new_unused name max_unused !! n = d !! n.
Proof.
  intros Hne. unfold upsert_dict.
  destruct (new_unused >=? max_unused).
  - case_bool_decide; [|done]. by rewrite lookup_delete_ne.
  - destruct (d !! car_no) as [[u nm]|]; by rewrite lookup_insert_ne.
Qed.

Lemma upsert_dict_lookup_eq d car_no new_unused name max_unused :
  upsert_dict d car_no new_unused name max_unused !! car_no
  = if new_unused >=? max_unused then None
    else Some (new_unused,
               match name with
               | [] => match d !! car_no with Some v => v.2 | None => [] end
               | _ => name
               end).
Proof.
  unfold upsert_dict. destruct (new_unused >=? max_unused).
  - case_bool_decide as Hs; [by rewrite lookup_delete_eq|].
    by apply eq_None_not_Some.
  - destruct (d !! car_no) as [[u nm]|]; rewrite lookup_insert_eq; by destruct name.
Qed.

Lemma set_single_entry_strict tables key car_no new_unused name max_unused :
  strictly_ascending
    (table_get (set_single_entry tables key car_no new_unused name max_unused) key).
Proof. rewrite set_single_entry_rows. apply sorted_rows_of_dict_strict. Qed.

Lemma filter_ascending (P : entry -> Prop) `{!forall e, Decision (P e)} rows :
  ascending rows -> ascending (filter P rows).
Proof.
  unfold ascending. induction rows as [|e r IH]; simpl; intros Hs; [constructor|].
  apply StronglySorted_cons in Hs as [Hx Hr].
  rewrite filter_cons. case_decide; [|by apply IH].
  csimpl. constructor; [by apply IH|].
  apply Forall_forall. intros y [z [-> Hz]]%list_elem_of_fmap.
  apply list_elem_of_filter in Hz as [_ Hz].
  rewrite Forall_forall in Hx. apply Hx. apply list_elem_of_fmap. by exists z.
Qed.


Lemma delete_entry_rows tables key nums :
  nums <> [] ->
  table_get (delete_entry tables key nums).1 key
  = sorted (filter (fun e : entry => num_of e ∉ (list_to_set nums : gset Z))
                   (table_get tables key)).
Proof.
  intros Hn. unfold delete_entry. destruct nums; [done|].
  cbv zeta. cbn [fst]. by rewrite table_get_set.
Qed.

Lemma delete_entry_cancel tables key : delete_entry tables key [] = (tables, None).
Proof. reflexivity. Qed.



End UpsertDeleteFacts.

(** ** Properties of the engine *)

Section EngineProperties.
Implicit Types (rows : list entry) (tables : roster).


(** C5. Every reported number is in the result of a bulk reconcile with
    idle count 0, under either policy: with the name it had when the
    table had the number, with the empty name when it is new; and it is the
    only record of that number. *)
Theorem reset_on_report rows (new_numbers : list Z) (max_unused : Z)
    (increment_absent : bool) (n : Z) :
  n ∈ new_numbers ->
  let result := update_table_rows rows new_numbers max_unused increment_absent in
  (forall u nm, dict_of_rows rows !! n = Some (u, nm) -> (n, 0, nm) ∈ result)
  /\ (n ∉ num_of <$> rows -> (n, 0, []) ∈ result)
  /\ (forall e, e ∈ result -> num_of e = n -> unused_of e = 0)
  /\ (exists nm, (n, 0, nm) ∈ result).
Proof.
  intros Hn result.
  assert (Hrec : reconciled (dict_of_rows rows) new_numbers max_unused increment_absent n
                 = Some (0, match dict_of_rows rows !! n with
                            | Some v => v.2 | None => [] end)).
  { unfold reconciled. by rewrite decide_True by done. }
  split; [|split; [|split]].
  - intros u nm Hd. apply elem_of_update_table_rows. by rewrite Hrec, Hd.
  - intros Hnew. apply dict_of_rows_None in Hnew.
    apply elem_of_update_table_rows. by rewrite Hrec, Hnew.
  - intros [[n' u'] nm'] He Hnum. unfold num_of in Hnum. simpl in Hnum. subst n'.
    apply elem_of_update_table_rows in He. rewrite Hrec in He. by simplify_eq.
  - eexists. apply elem_of_update_table_rows. exact Hrec.
Qed.

(** C6, as the code has it. A table in strictly ascending order of number
    is returned as it is by a bulk reconcile with nothing reported under
    the freeze policy. *)
Theorem freeze_empty_identity rows (max_unused : Z) :
  strictly_ascending rows ->
  update_table_rows rows [] max_unused false = rows.
Proof.
  intros Hs. rewrite update_table_rows_final.
  assert (Hf : final_dict rows [] max_unused false = dict_of_rows rows).
  { unfold final_dict, dict_in_order. cbv zeta. simpl list_to_set.
    by rewrite elements_empty. }
  rewrite Hf.
  apply strictly_ascending_unique; [apply sorted_rows_of_dict_strict|done|].
  rewrite sorted_perm. by apply rows_of_dict_of_rows, strict_NoDup.
Qed.

(** C7. An upsert of a number the table has, with an idle count below the
    threshold, sets the idle count; it keeps the stored name when the given
    name is empty and stores the given name otherwise; the record is the
    only one of that number. *)
Theorem upsert_name_preservation tables (key : key) (car_no new_unused : Z)
    (name : str) (max_unused u0 : Z) (nm0 : str) :
  dict_of_rows (table_get tables key) !! car_no = Some (u0, nm0) ->
  new_unused < max_unused ->
  let result :=
    table_get (set_single_entry tables key car_no new_unused name max_unused) key in
  (name = [] -> (car_no, new_unused, nm0) ∈ result)
  /\ (name <> [] -> (car_no, new_unused, name) ∈ result)
  /\ (forall e, e ∈ result -> num_of e = car_no ->
        e = (car_no, new_unused, match name with [] => nm0 | _ => name end)).
Proof.
  intros Hd Hlt result.
  assert (Hin : (car_no, new_unused, match name with [] => nm0 | _ => name end) ∈ result).
  { unfold result. rewrite set_single_entry_rows.
    apply elem_of_sorted_rows_of_dict. rewrite upsert_dict_lookup_eq, Hd.
    rewrite geb_false by lia. by destruct name. }
  split; [|split].
  - intros ->. exact Hin.
  - intros Hne. by destruct name.
  - intros e He Hnum.
    eapply strictly_ascending_functional; [apply set_single_entry_strict|done..].
Qed.

End EngineProperties.

(** ** Properties of the reader *)

Lemma bind_Ret_inv {A B} (m : result A) (k : A -> result B) (b : B) :
  (m ≫= k) = Ret b -> exists a, m = Ret a /\ k a = Ret b.
Proof. destruct m as [a|e]; [|done]. intros H. by exists a. Qed.

Lemma for_each_invariant {S A} (P : S -> Prop) (body : S -> A -> result S) :
  (forall s a s', P s -> body s a = Ret s' -> P s') ->
  forall l s s', P s -> for_each body l s = Ret s' -> P s'.
Proof.
  intros Hbody. induction l as [|a l IH]; intros s s' Hs Hrun; simpl in Hrun.
  - by simplify_eq.
  - apply bind_Ret_inv in Hrun as (s1 & H1 & H2). eauto.
Qed.

Section ReaderFacts.
Context `{U : UnicodeDB}.

Lemma decimal_value_nonneg s : forall acc n,
  0 <= acc -> decimal_value acc s = Some n -> 0 <= n.
Proof.
  induction s as [|c r IH]; intros acc n Hacc Hv; simpl in Hv.
  - by simplify_eq.
  - destruct (numeric c) as [v| |] eqn:Hc; try done.
    apply numeric_decimal_range in Hc. eapply IH; [|exact Hv]. lia.
Qed.

Lemma int_nonneg s n : int s = Ret n -> 0 <= n.
Proof.
  unfold int. destruct (decimal_value 0 s) as [m|] eqn:Hv; [|done].
  intros [= <-]. by eapply decimal_value_nonneg.
Qed.

Lemma parse_entry_tokens_nonneg tokens e :
  parse_entry_tokens tokens = Ret (Some e) -> nonneg_entry e.
Proof.
  unfold parse_entry_tokens, nonneg_entry. cbv zeta.
  repeat match goal with
  | |- context [if ?b then _ else _] => destruct b
  end; intros H; try done;
  repeat match goal with
  | H : (_ ≫= _) = Ret _ |- _ =>
    let n := fresh "n" in let Hn := fresh "Hn" in
    apply bind_Ret_inv in H as (n & Hn%int_nonneg & H)
  end; simplify_eq; unfold num_of, unused_of; simpl; lia.
Qed.

Lemma append_if_nonneg tables key rec :
  nonneg_tables tables -> (forall e, rec = Some e -> nonneg_entry e) ->
  nonneg_tables (append_if tables key rec).
Proof.
  intros [H1 H2] Hrec. destruct rec as [e|]; [|done].
  specialize (Hrec e eq_refl).
  destruct key; split; simpl; try done; apply Forall_app; split; try done;
    by apply Forall_singleton.
Qed.

Lemma side_by_side_line_nonneg tables raw_line tables' :
  nonneg_tables tables -> side_by_side_line tables raw_line = Ret tables' ->
  nonneg_tables tables'.
Proof.
  intros Ht. unfold side_by_side_line. cbv zeta.
  repeat match goal with
  | |- context [if ?b then _ else _] => destruct b
  end; intros H; try (by simplify_eq);
  repeat match goal with
  | H : (_ ≫= _) = Ret _ |- _ =>
    let r := fresh "r" in let Hr := fresh "Hr" in
    apply bind_Ret_inv in H as (r & Hr & H)
  end; simplify_eq;
  repeat apply append_if_nonneg; try done;
  intros e ->; by eapply parse_entry_tokens_nonneg.
Qed.

Lemma sequential_line_nonneg st ln st' :
  nonneg_tables st.2 -> sequential_line st ln = Ret st' -> nonneg_tables st'.2.
Proof.
  destruct st as [current_key tables]. simpl. intros Ht.
  unfold sequential_line.
  repeat match goal with
  | |- context [if ?b then _ else _] => destruct b
  end; intros H; try (by simplify_eq).
  destruct current_key as [key|]; [|by simplify_eq].
  apply bind_Ret_inv in H as (r & Hr & H). simplify_eq. simpl.
  apply append_if_nonneg; [done|].
  intros e ->. by eapply parse_entry_tokens_nonneg.
Qed.

(** What the reader returns is the stable sort of what its loop collected. *)
Lemma read_tables_from_txt_sorted content tables :
  read_tables_from_txt content = Ret tables ->
  exists collected, nonneg_tables collected
    /\ tables = {| C1 := sorted (C1 collected); C2 := sorted (C2 collected) |}.
Proof.
  unfold read_tables_from_txt. cbv zeta. intros H.
  apply bind_Ret_inv in H as (collected & Hloop & H). simplify_eq.
  exists collected. split; [|done].
  assert (H0 : nonneg_tables {| C1 := []; C2 := [] |}) by (split; constructor).
  destruct (is_side_by_side (file_lines content)).
  - eapply (for_each_invariant nonneg_tables); [|exact H0|exact Hloop].
    intros s a s'. apply side_by_side_line_nonneg.
  - apply bind_Ret_inv in Hloop as (st & Hloop & Hst). simplify_eq.
    eapply (for_each_invariant (fun st => nonneg_tables st.2)); [| |exact Hloop]; [|done].
    intros s a s'. apply sequential_line_nonneg.
Qed.


Lemma read_tables_from_txt_nonneg content tables :
  read_tables_from_txt content = Ret tables -> nonneg_tables tables.
Proof.
  intros (collected & [H1 H2] & ->)%read_tables_from_txt_sorted.
  split; simpl; by rewrite sorted_perm.
Qed.


End ReaderFacts.

(** ** The bound on the idle count *)

Section IdleBound.
Context `{U : UnicodeDB}.
Implicit Types (rows : list entry) (tables : roster).

Lemma update_table_rows_increment_bounded rows new_numbers max_unused :
  0 < max_unused -> idle_nonneg rows ->
  idle_bounded max_unused (update_table_rows rows new_numbers max_unused true).
Proof.
  intros Hmax Hrows. apply Forall_forall. intros [[n u] nm] He.
  apply elem_of_update_table_rows in He. unfold reconciled in He.
  unfold unused_of. simpl.
  case_decide; [simplify_eq; lia|].
  destruct (dict_of_rows rows !! n) as [[u0 nm0]|] eqn:Hd; [|done].
  apply dict_of_rows_Some_elem in Hd.
  unfold idle_nonneg in Hrows. rewrite Forall_forall in Hrows.
  specialize (Hrows _ Hd). unfold unused_of in Hrows. simpl in Hrows.
  unfold aged in He. simpl in He.
  destruct (u0 + 1 >=? max_unused) eqn:Hu; [done|].
  rewrite Z.geb_leb in Hu. apply Z.leb_gt in Hu. simplify_eq. lia.
Qed.

Lemma update_table_rows_freeze_bounded rows new_numbers max_unused :
  0 < max_unused -> idle_bounded max_unused rows ->
  idle_bounded max_unused (update_table_rows rows new_numbers max_unused false).
Proof.
  intros Hmax Hrows. apply Forall_forall. intros [[n u] nm] He.
  apply elem_of_update_table_rows in He. unfold reconciled in He.
  case_decide; [simplify_eq; unfold unused_of; simpl; lia|].
  destruct (dict_of_rows rows !! n) as [[u0 nm0]|] eqn:Hd; [|done].
  apply dict_of_rows_Some_elem in Hd. simplify_eq.
  unfold idle_bounded in Hrows. rewrite Forall_forall in Hrows.
  by apply (Hrows _ Hd).
Qed.

Lemma set_single_entry_bounded tables key car_no new_unused name max_unused :
  0 <= new_unused -> idle_bounded max_unused (table_get tables key) ->
  idle_bounded max_unused
    (table_get (set_single_entry tables key car_no new_unused name max_unused) key).
Proof.
  intros Hnew Hrows. rewrite set_single_entry_rows.
  apply Forall_forall. intros [[n u] nm] He.
  apply elem_of_sorted_rows_of_dict in He.
  destruct (decide (n = car_no)) as [->|Hne].
  - rewrite upsert_dict_lookup_eq in He.
    destruct (new_unused >=? max_unused) eqn:Hu; [done|].
    rewrite Z.geb_leb in Hu. apply Z.leb_gt in Hu. simplify_eq.
    unfold unused_of. simpl. lia.
  - rewrite upsert_dict_lookup_ne in He by done.
    apply dict_of_rows_Some_elem in He.
    unfold idle_bounded in Hrows. rewrite Forall_forall in Hrows.
    by apply (Hrows _ He).
Qed.

Lemma delete_entry_bounded tables key nums max_unused :
  idle_bounded max_unused (table_get tables key) ->
  idle_bounded max_unused (table_get (delete_entry tables key nums).1 key).
Proof.
  intros Hrows. destruct (decide (nums = [])) as [->|Hn]; [done|].
  rewrite delete_entry_rows by done.
  apply Forall_forall. intros e He.
  apply elem_of_sorted, list_elem_of_filter in He as [_ He].
  unfold idle_bounded in Hrows. rewrite Forall_forall in Hrows. by apply Hrows.
Qed.

(** C4, as the code has it. The idle count of a record is never negative.
    With a positive threshold, a bulk reconcile under the increment policy
    returns only idle counts below the threshold; under the freeze policy,
    an upsert of an idle count that is not negative and a delete return
    only such idle counts when the table they are given has only such.
    The reader applies no threshold to the idle counts of the file. *)
Theorem idle_count_bound tables (key : key) (max_unused : Z) :
  0 < max_unused ->
  idle_nonneg (table_get tables key) ->
  (forall content read, read_tables_from_txt content = Ret read ->
     idle_nonneg (C1 read) /\ idle_nonneg (C2 read))
  /\ (forall new_numbers,
        idle_bounded max_unused
          (update_table_rows (table_get tables key) new_numbers max_unused true))
  /\ (idle_bounded max_unused (table_get tables key) ->
      (forall new_numbers,
         idle_bounded max_unused
           (update_table_rows (table_get tables key) new_numbers max_unused false))
      /\ (forall car_no new_unused name, 0 <= new_unused ->
            idle_bounded max_unused
              (table_get (set_single_entry tables key car_no new_unused name max_unused)
                         key))
      /\ (forall nums,
            idle_bounded max_unused (table_get (delete_entry tables key nums).1 key))).
Proof.
  intros Hmax Hrows. split; [|split].
  - intros content read [H1 H2]%read_tables_from_txt_nonneg.
    split; (eapply Forall_impl; [eassumption|]); by intros e [_ ?].
  - intros. by apply update_table_rows_increment_bounded.
  - intros Hb. split; [|split].
    + intros. by apply update_table_rows_freeze_bounded.
    + intros. by apply set_single_entry_bounded.
    + intros. by apply delete_entry_bounded.
Qed.

End IdleBound.

(** ** The header marker *)

Section MarkerFacts.
Context `{U : UnicodeDB}.

Lemma side_by_side_line_marker tables raw_line :
  contains marker (strip raw_line) = true ->
  side_by_side_line tables raw_line = Ret tables.
Proof.
  intros Hm. unfold side_by_side_line. cbv zeta. rewrite Hm.
  by case_bool_decide.
Qed.

Lemma sequential_line_marker st ln :
  startswith marker (strip ln) = true -> sequential_line st ln = Ret st.
Proof.
  intros Hm. unfold sequential_line. destruct st as [current_key tables].
  cbv zeta. rewrite Hm.
  case_bool_decide as H0; [done|].
  case_bool_decide as H1; [by rewrite H1 in Hm|].
  case_bool_decide as H2; [by rewrite H2 in Hm|].
  done.
Qed.

Lemma sequential_line_record key tables ln :
  strip ln <> [] -> strip ln <> lit "C1" -> strip ln <> lit "C2" ->
  startswith marker (strip ln) = false ->
  sequential_line (Some key, tables) ln
  = rec ← parse_entry_tokens (split (strip ln)); Ret (Some key, append_if tables key rec).
Proof.
  intros H0 H1 H2 Hm. unfold sequential_line. cbv zeta. rewrite Hm.
  by rewrite !bool_decide_false by done.
Qed.

(** C10. In the side-by-side layout a line that has the marker anywhere
    adds no record, also a line of the record grammar whose name has it;
    in the sequential layout a line is passed over for the marker only
    when it starts with it, and a record line with the marker further on
    is read. *)
Theorem marker_skipping (tables : roster) (key : key) (ln : str) :
  (contains marker (strip ln) = true -> side_by_side_line tables ln = Ret tables)
  /\ (startswith marker (strip ln) = true ->
        sequential_line (Some key, tables) ln = Ret (Some key, tables))
  /\ (startswith marker (strip ln) = false ->
      strip ln <> [] -> strip ln <> lit "C1" -> strip ln <> lit "C2" ->
        sequential_line (Some key, tables) ln
        = rec ← parse_entry_tokens (split (strip ln));
          Ret (Some key, append_if tables key rec))
  /\ parse_entry_tokens (split (strip (lit "王车号 5 0")))
     = Ret (Some (5, 0, lit "王车号"))
  /\ side_by_side_line tables (lit "王车号 5 0") = Ret tables
  /\ sequential_line (Some key, tables) (lit "王车号 5 0")
     = Ret (Some key, append tables key (5, 0, lit "王车号")).
Proof.
  split; [apply side_by_side_line_marker|].
  split; [apply sequential_line_marker|].
  split; [intros; by apply sequential_line_record|].
  assert (Hp : parse_entry_tokens (split (strip (lit "王车号 5 0")))
               = Ret (Some (5, 0, lit "王车号"))).
  { eval_lits. cbv -[numeric]. numeric_eval. reflexivity. }
  split; [exact Hp|]. split.
  - by apply side_by_side_line_marker.
  - rewrite sequential_line_record by done. by rewrite Hp.
Qed.

End MarkerFacts.

(** ** Text lemmas for the round trip *)

Section TextFacts.

Lemma elem_of_rev (x : Z) l : x ∈ rev l ↔ x ∈ l.
Proof. rewrite !list_elem_of_In. symmetry. apply in_rev. Qed.

Lemma elem_of_rev_list (x : str) l : x ∈ rev l ↔ x ∈ l.
Proof. rewrite !list_elem_of_In. symmetry. apply in_rev. Qed.

Lemma lstrip_nonblank c r : nonblank c -> lstrip (c :: r) = c :: r.
Proof. unfold nonblank. intros H. simpl. by rewrite H. Qed.

Lemma lstrip_blank c r : blank c -> lstrip (c :: r) = lstrip r.
Proof. unfold blank. intros H. simpl. by rewrite H. Qed.

Lemma strip_blank c r : blank c -> strip (c :: r) = strip r.
Proof. intros H. unfold strip. by rewrite lstrip_blank. Qed.

Lemma strip_id s : lstrip s = s -> lstrip (rev s) = rev s -> strip s = s.
Proof. intros H1 H2. unfold strip. by rewrite H1, H2, rev_involutive. Qed.

Lemma lstrip_decompose s : exists a, s = a ++ lstrip s /\ Forall blank a.
Proof.
  induction s as [|c r [a [Ha Hb]]]; [by exists []|].
  simpl. destruct (isspace_char c) eqn:Hc.
  - exists (c :: a). split; [simpl; by f_equal|]. by constructor.
  - by exists [].
Qed.

Lemma strip_decompose s :
  exists a b, s = a ++ strip s ++ b /\ Forall blank a /\ Forall blank b.
Proof.
  destruct (lstrip_decompose s) as (a & Ha & Hba).
  destruct (lstrip_decompose (rev (lstrip s))) as (b & Hb & Hbb).
  exists a, (rev b). split; [|split; [done|]].
  - rewrite Ha at 1. f_equal. unfold strip.
    rewrite <- rev_app_distr, <- Hb. by rewrite rev_involutive.
  - apply Forall_forall. intros x Hx. rewrite Forall_forall in Hbb.
    apply Hbb. by rewrite elem_of_rev in Hx.
Qed.

(** *** Substrings *)

Lemma startswith_app_sep p c : Forall (fun x => x <> c) p ->
  forall a b, startswith p (a ++ c :: b) = startswith p a.
Proof.
  induction 1 as [|y p Hy Hp IH]; intros a b; [by destruct a|].
  destruct a as [|x a]; simpl.
  - by replace (y =? c) with false by (symmetry; by apply Z.eqb_neq).
  - by rewrite IH.
Qed.

Lemma contains_nil p : p <> [] -> contains p [] = false.
Proof. by destruct p. Qed.

Lemma contains_sep p a c b :
  p <> [] -> Forall (fun x => x <> c) p ->
  contains p (a ++ c :: b) = contains p a || contains p b.
Proof.
  intros Hp Hc. induction a as [|x a IH].
  - rewrite contains_nil by done. cbn [app contains].
    pose proof (startswith_app_sep p c Hc [] b) as H. cbn [app] in H.
    rewrite H. by destruct p.
  - change ((x :: a) ++ c :: b) with (x :: (a ++ c :: b)).
    cbn [contains]. rewrite IH.
    pose proof (startswith_app_sep p c Hc (x :: a) b) as H. cbn [app] in H.
    rewrite H. by rewrite orb_assoc.
Qed.

Lemma contains_cons_sep p c b :
  p <> [] -> Forall (fun x => x <> c) p -> contains p (c :: b) = contains p b.
Proof.
  intros Hp Hc. pose proof (contains_sep p [] c b Hp Hc) as H.
  cbn [app] in H. rewrite H. by rewrite contains_nil.
Qed.

Lemma startswith_app_l p a b : startswith p a = true -> startswith p (a ++ b) = true.
Proof.
  revert a. induction p as [|y p IH]; intros a H; [done|].
  destruct a as [|x a]; [done|]. simpl in *.
  apply andb_true_iff in H as [-> H]. by rewrite IH.
Qed.

Lemma contains_app_l p a b : contains p a = true -> contains p (a ++ b) = true.
Proof.
  induction a as [|x a IH]; intros H.
  - simpl in H. rewrite orb_false_r in H. destruct p; [|done]. by destruct b.
  - cbn [contains] in H. apply orb_true_iff in H as [H|H].
    + change ((x :: a) ++ b) with (x :: (a ++ b)). cbn [contains].
      change (x :: (a ++ b)) with ((x :: a) ++ b).
      by rewrite startswith_app_l.
    + change ((x :: a) ++ b) with (x :: (a ++ b)). cbn [contains].
      rewrite IH by done. apply orb_true_r.
Qed.

Lemma contains_absent x p s :
  Forall (fun c => c <> x) s -> contains (x :: p) s = false.
Proof.
  induction 1 as [|c s Hc Hs IH]; [done|].
  cbn [contains startswith]. rewrite IH.
  by replace (x =? c) with false by (symmetry; apply Z.eqb_neq; congruence).
Qed.

Lemma contains_blanks p a :
  p <> [] -> Forall nonblank p -> Forall blank a -> contains p a = false.
Proof.
  intros Hp Hn. induction 1 as [|c a Hc Ha IH]; [by apply contains_nil|].
  rewrite contains_cons_sep; [done..|].
  eapply Forall_impl; [exact Hn|]. unfold nonblank, blank in *. intros y Hy ->. congruence.
Qed.

Lemma contains_blanks_l p a s :
  p <> [] -> Forall nonblank p -> Forall blank a -> contains p (a ++ s) = contains p s.
Proof.
  intros Hp Hn. induction 1 as [|c a Hc Ha IH]; [done|].
  change ((c :: a) ++ s) with (c :: (a ++ s)).
  rewrite contains_cons_sep; [done..|].
  eapply Forall_impl; [exact Hn|]. unfold nonblank, blank in *. intros y Hy ->. congruence.
Qed.

Lemma contains_blanks_r p s b :
  p <> [] -> Forall nonblank p -> Forall blank b -> contains p (s ++ b) = contains p s.
Proof.
  intros Hp Hn Hb. destruct Hb as [|c b Hc Hb]; [by rewrite app_nil_r|].
  rewrite contains_sep; [|done|].
  - rewrite (contains_blanks p b) by done. apply orb_false_r.
  - eapply Forall_impl; [exact Hn|]. unfold nonblank, blank in *. intros y Hy ->. congruence.
Qed.

(** A pattern without blanks is in the stripped line when it is in the line. *)
Lemma contains_strip p s :
  p <> [] -> Forall nonblank p -> contains p (strip s) = contains p s.
Proof.
  intros Hp Hn. destruct (strip_decompose s) as (a & b & Hs & Ha & Hb).
  rewrite Hs at 2. by rewrite contains_blanks_l, contains_blanks_r.
Qed.

Lemma existsb_blanks (q : Z -> bool) a :
  (forall c, q c = true -> nonblank c) -> Forall blank a -> existsb q a = false.
Proof.
  intros Hq. induction 1 as [|c a Hc Ha IH]; [done|]. simpl. rewrite IH.
  destruct (q c) eqn:E; [|done]. apply Hq in E. unfold nonblank, blank in *. congruence.
Qed.

Lemma existsb_strip (q : Z -> bool) s :
  (forall c, q c = true -> nonblank c) -> existsb q (strip s) = existsb q s.
Proof.
  intros Hq. destruct (strip_decompose s) as (a & b & Hs & Ha & Hb).
  rewrite Hs at 2. rewrite !existsb_app.
  by rewrite (existsb_blanks q a), (existsb_blanks q b), orb_false_r.
Qed.

(** *** Words *)

Lemma words_cons t ts : ts <> [] -> words (t :: ts) = t ++ SPACE :: words ts.
Proof. by destruct ts. Qed.

Lemma words_snoc l t : l <> [] -> words (l ++ [t]) = words l ++ SPACE :: t.
Proof.
  induction l as [|x l IH]; [done|]. intros _.
  destruct (decide (l = [])) as [->|Hne]; [done|].
  change ((x :: l) ++ [t]) with (x :: (l ++ [t])).
  rewrite (words_cons x l) by done.
  rewrite words_cons by (by destruct l).
  rewrite IH by done. by rewrite <- app_assoc.
Qed.

Lemma rev_words ts : rev (words ts) = words (rev (@rev Z <$> ts)).
Proof.
  induction ts as [|t ts IH]; [done|].
  destruct (decide (ts = [])) as [->|Hne]; [done|].
  rewrite words_cons by done. rewrite rev_app_distr.
  cbn [rev]. rewrite IH. csimpl. cbn [rev].
  rewrite words_snoc.
  - by rewrite <- app_assoc.
  - destruct ts; [done|]. csimpl. cbn [rev]. by destruct (rev (@rev Z <$> ts)).
Qed.

Lemma is_token_rev t : is_token t -> is_token (rev t).
Proof.
  intros [Hne Hnb]. split.
  - intros Hr. apply Hne. by rewrite <- (rev_involutive t), Hr.
  - apply Forall_forall. intros x Hx. rewrite Forall_forall in Hnb.
    apply Hnb. by rewrite elem_of_rev in Hx.
Qed.

Lemma lstrip_words ts : Forall is_token ts -> lstrip (words ts) = words ts.
Proof.
  intros Hts. destruct Hts as [|t ts [Hne Hnb] Hts]; [done|].
  destruct t as [|c t]; [done|]. apply Forall_cons in Hnb as [Hc _].
  unfold words. destruct ts; simpl; by rewrite Hc.
Qed.

Lemma strip_words ts : Forall is_token ts -> strip (words ts) = words ts.
Proof.
  intros Hts. apply strip_id; [by apply lstrip_words|].
  rewrite rev_words. apply lstrip_words.
  apply Forall_forall. intros x Hx. rewrite elem_of_rev_list in Hx.
  apply list_elem_of_fmap in Hx as (t & -> & Ht).
  apply is_token_rev. rewrite Forall_forall in Hts. by apply Hts.
Qed.

Lemma split_from_token t : Forall nonblank t ->
  forall rest cur, split_from (t ++ rest) cur = split_from rest (rev t ++ cur).
Proof.
  induction 1 as [|c t Hc Ht IH]; intros rest cur; [done|].
  simpl. rewrite Hc, IH. by rewrite <- app_assoc.
Qed.

Lemma split_words ts : Forall is_token ts -> split (words ts) = ts.
Proof.
  unfold split. induction 1 as [|t ts [Hne Hnb] Hts IH]; [done|].
  assert (Hfl : forall rest, flush (rev t ++ []) rest = t :: rest).
  { intros rest. rewrite app_nil_r. unfold flush.
    destruct (rev t) eqn:E; [|by rewrite <- E, rev_involutive].
    apply (f_equal (@rev Z)) in E. rewrite rev_involutive in E. done. }
  destruct (decide (ts = [])) as [->|Hne'].
  - pose proof (split_from_token t Hnb [] []) as H.
    rewrite (app_nil_r t) in H. change (words [t]) with t.
    rewrite H. simpl. apply Hfl.
  - rewrite words_cons by done. rewrite split_from_token by done.
    simpl. rewrite Hfl. by rewrite IH.
Qed.

Lemma words_no_blank_head ts c r :
  Forall is_token ts -> words ts = c :: r -> nonblank c.
Proof.
  intros Hts Hw. destruct Hts as [|t ts [Hne Hnb] Hts]; [done|].
  destruct t as [|x t]; [done|]. apply Forall_cons in Hnb as [Hx _].
  unfold words in Hw. destruct ts; simpl in Hw; by simplify_eq.
Qed.

(** *** The column separator *)

Lemma run_length_head (p : Z -> bool) c r : p c = false -> run_length p (c :: r) = 0%nat.
Proof. intros H. simpl. by rewrite H. Qed.

Lemma sep_len_nonblank c r : nonblank c -> sep_len (c :: r) = 0%nat.
Proof.
  intros Hc. unfold sep_len.
  rewrite (run_length_head (Z.eqb TAB)), (run_length_head isspace_char); [done..|].
  apply Z.eqb_neq. intros <-. by vm_compute in Hc.
Qed.

Lemma sep_len_space c r : nonblank c -> sep_len (SPACE :: c :: r) = 0%nat.
Proof.
  intros Hc. unfold sep_len. simpl. unfold nonblank in Hc. by rewrite Hc.
Qed.

Lemma sep_len_tabs r :
  match r with [] => True | c :: _ => nonblank c end ->
  sep_len (TAB :: TAB :: r) = 2%nat.
Proof.
  intros Hr. destruct r as [|c r]; [done|].
  assert (H0 : run_length (Z.eqb TAB) (c :: r) = 0%nat).
  { apply run_length_head. apply Z.eqb_neq. intros <-. by vm_compute in Hr. }
  unfold sep_len.
  change (run_length (Z.eqb TAB) (TAB :: TAB :: c :: r))
    with (S (S (run_length (Z.eqb TAB) (c :: r)))).
  by rewrite H0.
Qed.

Lemma re_split_from_token t : Forall nonblank t ->
  forall rest cur,
  re_split_from (t ++ rest) 0 cur = re_split_from rest 0 (rev t ++ cur).
Proof.
  induction 1 as [|c t Hc Ht IH]; intros rest cur; [done|].
  change ((c :: t) ++ rest) with (c :: (t ++ rest)).
  cbn [re_split_from]. rewrite sep_len_nonblank by done.
  rewrite IH. simpl. by rewrite <- app_assoc.
Qed.

Lemma re_split_from_space s cur :
  match s with [] => False | c :: _ => nonblank c end ->
  re_split_from (SPACE :: s) 0 cur = re_split_from s 0 (SPACE :: cur).
Proof.
  destruct s as [|c r]; [done|]. intros Hc.
  cbn [re_split_from]. by rewrite sep_len_space.
Qed.

Lemma words_app_head ts rest :
  ts <> [] -> Forall is_token ts ->
  match words ts ++ rest with [] => False | c :: _ => nonblank c end.
Proof.
  intros Hne Hts. destruct (words ts) as [|c w] eqn:Hw.
  - destruct Hts as [|t ts [Ht _] Hts]; [done|].
    unfold words in Hw. destruct t; [done|]. by destruct ts.
  - simpl. by eapply words_no_blank_head.
Qed.

Lemma re_split_from_words ts : Forall is_token ts ->
  forall rest cur,
  re_split_from (words ts ++ rest) 0 cur
  = re_split_from rest 0 (rev (words ts) ++ cur).
Proof.
  induction 1 as [|t ts [Hne Hnb] Hts IH]; intros rest cur; [done|].
  destruct (decide (ts = [])) as [->|Hne'].
  - by apply re_split_from_token.
  - rewrite words_cons by done. rewrite <- app_assoc.
    rewrite re_split_from_token by done.
    change ((SPACE :: words ts) ++ rest) with (SPACE :: (words ts ++ rest)).
    rewrite re_split_from_space by (by apply words_app_head).
    rewrite IH. f_equal.
    rewrite rev_app_distr. cbn [rev]. by rewrite <- !app_assoc.
Qed.

Lemma re_split_words ts : Forall is_token ts -> re_split (words ts) = [words ts].
Proof.
  intros Hts. unfold re_split.
  pose proof (re_split_from_words ts Hts [] []) as H.
  rewrite app_nil_r in H. rewrite H. simpl.
  by rewrite app_nil_r, rev_involutive.
Qed.

(** A row of the writer splits into its two columns. *)
Lemma re_split_row ts1 ts2 :
  Forall is_token ts1 -> Forall is_token ts2 ->
  re_split (words ts1 ++ [TAB; TAB] ++ words ts2) = [words ts1; words ts2].
Proof.
  intros H1 H2. unfold re_split.
  rewrite re_split_from_words by done.
  cbn [app re_split_from].
  rewrite sep_len_tabs.
  - rewrite app_nil_r, rev_involutive. f_equal. cbn [re_split_from].
    destruct (words ts2) eqn:Hw; [done|]. rewrite <- Hw.
    by apply re_split_words.
  - destruct (words ts2) eqn:Hw; [done|]. by eapply words_no_blank_head.
Qed.

End TextFacts.

(** ** What the writer gives for a record *)

Section DigitFacts.
Context `{U : UnicodeDB}.

Lemma is_ascii_digit_spec c : is_ascii_digit c = true ↔ ascii_digit c.
Proof.
  unfold is_ascii_digit, ascii_digit.
  rewrite andb_true_iff, !Z.leb_le. done.
Qed.

Lemma ascii_digit_nonblank c : ascii_digit c -> nonblank c.
Proof.
  unfold ascii_digit, nonblank, isspace_char. intros Hc.
  repeat match goal with
  | |- context [?a <=? ?b] =>
    first [ replace (a <=? b) with true by (symmetry; apply Z.leb_le; lia)
          | replace (a <=? b) with false by (symmetry; apply Z.leb_gt; lia) ]
  | |- context [?a =? ?b] =>
    replace (a =? b) with false by (symmetry; apply Z.eqb_neq; lia)
  end. reflexivity.
Qed.

Lemma ascii_digit_isdigit c : ascii_digit c -> isdigit_char c = true.
Proof. intros Hc. unfold isdigit_char. by rewrite numeric_ascii_digit. Qed.

Lemma digits_from_ascii f : forall n acc,
  0 <= n -> Forall ascii_digit acc -> Forall ascii_digit (digits_from f n acc).
Proof.
  induction f as [|f IH]; intros n acc Hn Hacc; [done|].
  assert (Hd : ascii_digit (48 + n mod 10)).
  { unfold ascii_digit. pose proof (Z.mod_pos_bound n 10). lia. }
  simpl. destruct (n <? 10); [by constructor|].
  apply IH; [apply Z.div_pos; lia|by constructor].
Qed.

Lemma digits_from_nonempty f : forall n acc,
  (f <> 0%nat \/ acc <> []) -> digits_from f n acc <> [].
Proof.
  induction f as [|f IH]; intros n acc Hne; [by destruct Hne|].
  simpl. destruct (n <? 10); [done|]. apply IH. by right.
Qed.

Lemma decimal_value_digits f : forall n acc,
  0 <= n < 2 ^ Z.of_nat f ->
  decimal_value 0 (digits_from f n acc) = decimal_value n acc.
Proof.
  induction f as [|f IH]; intros n acc Hn.
  - simpl in *. by replace n with 0 by lia.
  - assert (Hd : 48 <= 48 + n mod 10 <= 57).
    { pose proof (Z.mod_pos_bound n 10). lia. }
    cbn [digits_from]. cbv zeta. destruct (n <? 10) eqn:E.
    + apply Z.ltb_lt in E. cbn [decimal_value].
      rewrite numeric_ascii_digit by done.
      rewrite Z.mod_small by lia. f_equal. lia.
    + apply Z.ltb_ge in E. rewrite IH.
      * cbn [decimal_value]. rewrite numeric_ascii_digit by done.
        f_equal. pose proof (Z.div_mod n 10). lia.
      * rewrite Nat2Z.inj_succ, Z.pow_succ_r in Hn by lia.
        split; [apply Z.div_pos; lia|].
        apply Z.div_lt_upper_bound; lia.
Qed.

Lemma log2_fuel n : 0 <= n -> n < 2 ^ Z.of_nat (S (Z.to_nat (Z.log2 n))).
Proof.
  intros Hn. rewrite Nat2Z.inj_succ, Z2Nat.id by apply Z.log2_nonneg.
  destruct (decide (n = 0)) as [->|Hne]; [done|].
  apply Z.log2_spec. lia.
Qed.

Lemma str_of_int_nonneg n :
  0 <= n -> str_of_int n = digits_from (S (Z.to_nat (Z.log2 n))) n [].
Proof.
  intros Hn. unfold str_of_int.
  by replace (n <? 0) with false by (symmetry; apply Z.ltb_ge; lia).
Qed.

(** [int(str(n)) == n] *)
Lemma int_str_of_int n : 0 <= n -> int (str_of_int n) = Ret n.
Proof.
  intros Hn. unfold int. rewrite str_of_int_nonneg by done.
  rewrite decimal_value_digits; [done|].
  split; [done|]. by apply log2_fuel.
Qed.

Lemma str_of_int_ascii n : 0 <= n -> Forall ascii_digit (str_of_int n).
Proof.
  intros Hn. rewrite str_of_int_nonneg by done. by apply digits_from_ascii.
Qed.

Lemma str_of_int_nonempty n : 0 <= n -> str_of_int n <> [].
Proof.
  intros Hn. rewrite str_of_int_nonneg by done. apply digits_from_nonempty. by left.
Qed.

Lemma isdigit_str_of_int n : 0 <= n -> isdigit (str_of_int n) = true.
Proof.
  intros Hn. pose proof (str_of_int_ascii n Hn) as Ha.
  pose proof (str_of_int_nonempty n Hn) as Hne.
  unfold isdigit. destruct (str_of_int n) as [|c s] eqn:E; [done|].
  apply forallb_forall. intros x Hx. apply ascii_digit_isdigit.
  rewrite Forall_forall in Ha. apply Ha. by apply list_elem_of_In.
Qed.

Lemma is_token_str_of_int n : 0 <= n -> is_token (str_of_int n).
Proof.
  intros Hn. split; [by apply str_of_int_nonempty|].
  eapply Forall_impl; [by apply str_of_int_ascii|]. apply ascii_digit_nonblank.
Qed.

Lemma existsb_digit_str_of_int n : 0 <= n -> existsb is_ascii_digit (str_of_int n) = true.
Proof.
  intros Hn. pose proof (str_of_int_ascii n Hn) as Ha.
  pose proof (str_of_int_nonempty n Hn) as Hne.
  destruct (str_of_int n) as [|c s]; [done|].
  apply Forall_cons in Ha as [Hc _]. simpl.
  apply is_ascii_digit_spec in Hc. by rewrite Hc.
Qed.

Lemma marker_eq : marker = [0x8F66; 0x53F7].
Proof. reflexivity. Qed.

Lemma marker_nonblank : Forall nonblank marker.
Proof. rewrite marker_eq. repeat (apply Forall_cons_2; [done|]). apply Forall_nil_2. Qed.

Lemma contains_marker_str_of_int n : 0 <= n -> contains marker (str_of_int n) = false.
Proof.
  intros Hn. rewrite marker_eq. apply contains_absent.
  eapply Forall_impl; [by apply str_of_int_ascii|].
  unfold ascii_digit. simpl. intros; lia.
Qed.

Lemma contains_marker_sep a c b :
  blank c -> contains marker (a ++ c :: b) = contains marker a || contains marker b.
Proof.
  intros Hc. apply contains_sep; [done|].
  eapply Forall_impl; [apply marker_nonblank|].
  unfold nonblank, blank in *. intros x Hx ->. congruence.
Qed.

(** *** The text of a record and its tokens *)

Lemma entry_tokens_ok e :
  writable e ->
  Forall is_token (entry_tokens e)
  /\ format_entry e = words (entry_tokens e)
  /\ parse_entry_tokens (entry_tokens e) = Ret (Some e)
  /\ contains marker (words (entry_tokens e)) = false
  /\ existsb is_ascii_digit (words (entry_tokens e)) = true.
Proof.
  destruct e as [[n u] nm]. unfold writable, num_of, unused_of, name_of.
  cbn [fst snd]. unfold format_entry, entry_tokens. cbv beta iota.
  intros (Hn & Hu & Hnm).
  pose proof (is_token_str_of_int n Hn) as Htn.
  pose proof (is_token_str_of_int u Hu) as Htu.
  destruct (decide (nm = [])) as [->|Hne].
  - clear Hnm.
    assert (Hts : Forall is_token [str_of_int n; str_of_int u])
      by (repeat (apply Forall_cons_2; [done|]); apply Forall_nil_2).
    split; [done|]. split; [|split; [|split]].
    + change ([] ++ [SPACE] ++ str_of_int n ++ [SPACE] ++ str_of_int u)
        with (SPACE :: words [str_of_int n; str_of_int u]).
      rewrite strip_blank by done. by apply strip_words.
    + apply parse_number_idle;
        auto using isdigit_str_of_int, int_str_of_int.
    + change (words [str_of_int n; str_of_int u])
        with (str_of_int n ++ SPACE :: str_of_int u).
      rewrite contains_marker_sep by done.
      by rewrite !contains_marker_str_of_int.
    + change (words [str_of_int n; str_of_int u])
        with (str_of_int n ++ SPACE :: str_of_int u).
      rewrite existsb_app. by rewrite existsb_digit_str_of_int.
  - destruct Hnm as [->|(Hnb & Hnd & Hnm)]; [done|].
    destruct nm as [|c nm'] eqn:Enm; [done|]. rewrite <- Enm in *.
    assert (Hts : Forall is_token [nm; str_of_int n; str_of_int u])
      by (repeat (apply Forall_cons_2; [done|]); apply Forall_nil_2).
    clear Enm.
    split; [done|]. split; [|split; [|split]].
    + change (nm ++ [SPACE] ++ str_of_int n ++ [SPACE] ++ str_of_int u)
        with (words [nm; str_of_int n; str_of_int u]).
      by apply strip_words.
    + apply parse_name_number_idle;
        auto using isdigit_str_of_int, int_str_of_int.
    + change (words [nm; str_of_int n; str_of_int u])
        with (nm ++ SPACE :: (str_of_int n ++ SPACE :: str_of_int u)).
      rewrite !contains_marker_sep by done.
      by rewrite Hnm, !contains_marker_str_of_int.
    + change (words [nm; str_of_int n; str_of_int u])
        with (nm ++ SPACE :: (str_of_int n ++ SPACE :: str_of_int u)).
      rewrite existsb_app. cbn [existsb]. rewrite existsb_app.
      rewrite existsb_digit_str_of_int by done. by rewrite !orb_true_r.
Qed.

Lemma column_tokens_ok o :
  writable_column o ->
  Forall is_token (column_tokens o)
  /\ column o = words (column_tokens o)
  /\ parse_entry_tokens (column_tokens o) = Ret o
  /\ contains marker (words (column_tokens o)) = false
  /\ (o <> None -> existsb is_ascii_digit (words (column_tokens o)) = true).
Proof.
  destruct o as [e|]; simpl.
  - intros He. destruct (entry_tokens_ok e He) as (H1 & H2 & H3 & H4 & H5).
    by repeat split.
  - intros _. by repeat split.
Qed.

End DigitFacts.

(** ** The lines of the written text *)

Section Lines.

Lemma write_tables_to_txt_lines tables :
  write_tables_to_txt tables = concat (with_newline <$> written_lines tables).
Proof.
  unfold write_tables_to_txt, written_lines. cbv zeta.
  set (rows1 := sorted (C1 tables)). set (rows2 := sorted (C2 tables)).
  set (n := Nat.max (length rows1) (length rows2)).
  rewrite !fmap_app, !concat_app.
  assert (Hrows : concat (with_newline <$> map (row_text rows1 rows2) (seq 0 n))
                  = concat (map (row_line rows1 rows2) (seq 0 n))).
  { f_equal. generalize (seq 0 n). intros l.
    induction l as [|i l IH]; [done|]. csimpl. rewrite IH. f_equal.
    unfold with_newline, row_text, row_line, column. by rewrite <- !app_assoc. }
  rewrite Hrows. cbn [fmap list_fmap concat].
  unfold with_newline, summary_line, summary_text.
  rewrite ?app_nil_r. rewrite <- ?app_assoc. cbn [app]. reflexivity.
Qed.

Lemma universal_newlines_id s :
  Forall (fun c => c <> CR) s -> universal_newlines false s = s.
Proof.
  induction 1 as [|c s Hc Hs IH]; [done|]. simpl.
  replace (c =? CR) with false by (symmetry; by apply Z.eqb_neq).
  by rewrite andb_false_r, IH.
Qed.

Lemma splitlines_line l rest :
  Forall (fun c => c <> LF) l -> splitlines (l ++ LF :: rest) = l :: splitlines rest.
Proof.
  induction 1 as [|c l Hc Hl IH]; [done|].
  change ((c :: l) ++ LF :: rest) with (c :: (l ++ LF :: rest)).
  cbn [splitlines]. rewrite IH.
  by replace (c =? LF) with false by (symmetry; by apply Z.eqb_neq).
Qed.

Lemma splitlines_concat ls :
  Forall no_newline ls -> splitlines (concat (with_newline <$> ls)) = ls.
Proof.
  induction 1 as [|l ls Hl Hls IH]; [done|]. csimpl.
  unfold with_newline at 1. rewrite <- app_assoc.
  change ([LF] ++ concat (with_newline <$> ls)) with (LF :: concat (with_newline <$> ls)).
  rewrite splitlines_line, IH; [done|].
  eapply Forall_impl; [exact Hl|]. by intros c [? _].
Qed.

Lemma no_newline_concat ls :
  Forall no_newline ls -> Forall (fun c => c <> CR) (concat (with_newline <$> ls)).
Proof.
  induction 1 as [|l ls Hl Hls IH]; [done|]. csimpl.
  unfold with_newline at 1. rewrite <- app_assoc.
  apply Forall_app. split; [eapply Forall_impl; [exact Hl|]; by intros c [_ ?]|].
  by constructor.
Qed.

Lemma file_lines_concat ls :
  Forall no_newline ls -> file_lines (concat (with_newline <$> ls)) = ls.
Proof.
  intros Hls. unfold file_lines.
  rewrite universal_newlines_id by (by apply no_newline_concat).
  by apply splitlines_concat.
Qed.

Lemma no_newline_app a b : no_newline a -> no_newline b -> no_newline (a ++ b).
Proof. intros Ha Hb. apply Forall_app. by split. Qed.

Lemma no_newline_nonblank t : Forall nonblank t -> no_newline t.
Proof.
  intros Ht. eapply Forall_impl; [exact Ht|].
  unfold nonblank. intros c Hc. split; intros ->; by vm_compute in Hc.
Qed.

Lemma no_newline_join sep l :
  no_newline sep -> Forall no_newline l -> no_newline (join sep l).
Proof.
  intros Hsep. induction 1 as [|x l Hx Hl IH]; [constructor|].
  destruct l as [|y l]; [done|].
  change (join sep (x :: y :: l)) with (x ++ sep ++ join sep (y :: l)).
  auto using no_newline_app.
Qed.

Lemma no_newline_words ts : Forall is_token ts -> no_newline (words ts).
Proof.
  intros Hts. apply no_newline_join.
  - by repeat constructor.
  - eapply Forall_impl; [exact Hts|]. intros t [_ Ht]. by apply no_newline_nonblank.
Qed.

Lemma no_newline_lit (s : str) :
  forallb (fun c => negb (c =? LF) && negb (c =? CR)) s = true -> no_newline s.
Proof.
  intros H. apply Forall_forall. intros c Hc.
  rewrite forallb_forall in H. specialize (H c).
  rewrite <- list_elem_of_In in H. specialize (H Hc).
  apply andb_true_iff in H as [H1 H2].
  apply negb_true_iff in H1, H2. by apply Z.eqb_neq in H1, H2.
Qed.

End Lines.

(** ** Reading the written text back *)

Section RoundTrip.
Context `{U : UnicodeDB}.

Lemma for_each_app {S A} (body : S -> A -> result S) l1 l2 s :
  for_each body (l1 ++ l2) s = s' ← for_each body l1 s; for_each body l2 s'.
Proof.
  revert s. induction l1 as [|a l1 IH]; intros s; [done|].
  simpl. destruct (body s a) as [s1|e]; [apply IH|done].
Qed.

Lemma existsb_digit_isdigit s :
  existsb is_ascii_digit s = true -> existsb isdigit_char s = true.
Proof.
  intros (c & Hin & Hc)%existsb_exists. apply existsb_exists. exists c.
  split; [done|]. by apply ascii_digit_isdigit, is_ascii_digit_spec.
Qed.

Lemma is_ascii_digit_nonblank c : is_ascii_digit c = true -> nonblank c.
Proof. intros Hc. by apply ascii_digit_nonblank, is_ascii_digit_spec. Qed.

(** A row of the writer gives its two records back. *)
Lemma side_by_side_line_row tables o1 o2 :
  writable_column o1 -> writable_column o2 -> (o1 <> None \/ o2 <> None) ->
  side_by_side_line tables (column o1 ++ [TAB; TAB] ++ column o2)
  = Ret (append_if (append_if tables K1 o1) K2 o2).
Proof.
  intros H1 H2 Hsome.
  destruct (column_tokens_ok o1 H1) as (T1 & E1 & P1 & M1 & D1).
  destruct (column_tokens_ok o2 H2) as (T2 & E2 & P2 & M2 & D2).
  rewrite E1, E2.
  set (line := words (column_tokens o1) ++ [TAB; TAB] ++ words (column_tokens o2)).
  assert (Hline : line = words (column_tokens o1)
                         ++ TAB :: ([] ++ TAB :: words (column_tokens o2))) by done.
  assert (Hmark : contains marker (strip line) = false).
  { rewrite contains_strip by (done || apply marker_nonblank).
    rewrite Hline, !contains_marker_sep by done. by rewrite M1, M2. }
  assert (Hdig : existsb isdigit_char (strip line) = true).
  { apply existsb_digit_isdigit.
    rewrite existsb_strip by apply is_ascii_digit_nonblank.
    unfold line. rewrite !existsb_app.
    destruct Hsome as [Hs|Hs].
    - by rewrite D1.
    - rewrite D2 by done. by rewrite !orb_true_r. }
  assert (Hne : strip line <> []).
  { intros E. by rewrite E in Hdig. }
  unfold side_by_side_line. cbv zeta.
  rewrite bool_decide_false by done.
  rewrite Hmark, Hdig, andb_false_r.
  destruct o1 as [e1|].
  - assert (Hhead : exists c w, words (column_tokens (Some e1)) = c :: w /\ nonblank c).
    { pose proof (words_app_head (column_tokens (Some e1)) []) as Hh.
      rewrite app_nil_r in Hh.
      destruct (words (column_tokens (Some e1))) as [|c w] eqn:Hw.
      - exfalso. apply Hh; [|done]. simpl. unfold entry_tokens.
        destruct e1 as [[n u] nm]. by destruct nm.
      - exists c, w. split; [done|]. apply Hh; [|done].
        simpl. unfold entry_tokens. destruct e1 as [[n u] nm]. by destruct nm. }
    destruct Hhead as (c & w & Hw & Hc).
    assert (Hsp : isspace (take 1 line) = false).
    { unfold line. rewrite Hw. simpl. unfold nonblank in Hc. by rewrite Hc. }
    rewrite Hsp. unfold line. rewrite re_split_row by done.
    cbn [length nth]. change (2 <=? 2)%nat with true. cbv iota.
    rewrite !strip_words, !split_words by done.
    by rewrite P1, P2.
  - destruct Hsome as [?|Hs]; [done|].
    assert (Hl : line = TAB :: TAB :: words (column_tokens o2)) by done.
    rewrite Hl. change (isspace (take 1 (TAB :: TAB :: words (column_tokens o2))))
      with true. cbv iota.
    rewrite !strip_blank by done. rewrite strip_words, split_words by done.
    by rewrite P2.
Qed.

Lemma row_text_tail rows1 rows2 i :
  row_text rows1 rows2 (S i) = row_text (tail rows1) (tail rows2) i.
Proof. unfold row_text. by rewrite !lookup_tail. Qed.

Lemma writable_head rows : Forall writable rows -> writable_column (head rows).
Proof. by destruct 1. Qed.

Lemma writable_tail rows : Forall writable rows -> Forall writable (tail rows).
Proof. by destruct 1. Qed.

Lemma append_if_head tables (rows1 rows2 r1 r2 : list entry) :
  {| C1 := C1 (append_if (append_if tables K1 (head rows1)) K2 (head rows2)) ++ tail rows1;
     C2 := C2 (append_if (append_if tables K1 (head rows1)) K2 (head rows2)) ++ tail rows2 |}
  = {| C1 := C1 tables ++ rows1; C2 := C2 tables ++ rows2 |}.
Proof.
  destruct tables as [t1 t2], rows1 as [|e1 rows1], rows2 as [|e2 rows2];
    simpl; by rewrite <- ?app_assoc.
Qed.

(** The rows of the writer give the two tables back, in their order. *)
Lemma for_each_rows n : forall rows1 rows2 tables,
  Nat.max (length rows1) (length rows2) = n ->
  Forall writable rows1 -> Forall writable rows2 ->
  for_each side_by_side_line (map (row_text rows1 rows2) (seq 0 n)) tables
  = Ret {| C1 := C1 tables ++ rows1; C2 := C2 tables ++ rows2 |}.
Proof.
  induction n as [|n IH]; intros rows1 rows2 tables Hn H1 H2.
  - destruct rows1, rows2; try done. destruct tables. simpl.
    by rewrite !app_nil_r.
  - cbn [seq map for_each].
    assert (Hrow : row_text rows1 rows2 0 = column (head rows1) ++ [TAB; TAB]
                                             ++ column (head rows2)).
    { unfold row_text. by rewrite <- !head_lookup. }
    rewrite Hrow, side_by_side_line_row.
    + cbn [mbind result_bind].
      rewrite <- seq_shift, map_map.
      rewrite (map_ext _ (row_text (tail rows1) (tail rows2)))
        by (intros; apply row_text_tail).
      rewrite IH.
      * by rewrite append_if_head.
      * destruct rows1, rows2; simpl in *; lia.
      * by apply writable_tail.
      * by apply writable_tail.
    + by apply writable_head.
    + by apply writable_head.
    + destruct rows1, rows2; simpl in *; try lia; auto.
Qed.

Lemma side_by_side_line_header tables :
  side_by_side_line tables (lit "C1" ++ [TAB; TAB; TAB] ++ lit "C2") = Ret tables.
Proof. eval_lits. cbv -[numeric]. numeric_eval. reflexivity. Qed.

Lemma side_by_side_line_blank tables : side_by_side_line tables [] = Ret tables.
Proof. reflexivity. Qed.

Lemma side_by_side_line_summary tables key rows :
  contains marker (key ++ lit " 已使用车号: ") = true ->
  side_by_side_line tables (summary_text key rows) = Ret tables.
Proof.
  intros Hk. apply side_by_side_line_marker.
  rewrite contains_strip by (done || apply marker_nonblank).
  unfold summary_text. rewrite app_assoc. by apply contains_app_l.
Qed.

Lemma is_side_by_side_written tables : is_side_by_side (written_lines tables) = true.
Proof.
  unfold written_lines, is_side_by_side. cbv zeta. cbn [app].
  rewrite filter_cons_True by (by vm_compute).
  cbn [existsb]. apply orb_true_iff. left. by vm_compute.
Qed.

Lemma written_lines_no_newline tables :
  Forall writable (C1 tables) -> Forall writable (C2 tables) ->
  Forall no_newline (written_lines tables).
Proof.
  intros H1 H2.
  assert (Hs : forall rows, Forall writable rows ->
            no_newline (join (lit ",") (map (fun e : entry => str_of_int (num_of e)) rows))).
  { intros rows Hrows. apply no_newline_join; [by apply no_newline_lit|].
    apply Forall_forall. intros s Hs. apply list_elem_of_In, in_map_iff in Hs as (e & <- & He).
    rewrite Forall_forall in Hrows. apply list_elem_of_In in He.
    destruct (Hrows e He) as (Hn & _).
    apply no_newline_nonblank. by apply is_token_str_of_int. }
  assert (Hc : forall o, writable_column o -> no_newline (column o)).
  { intros o Ho. destruct (column_tokens_ok o Ho) as (T & E & _).
    rewrite E. by apply no_newline_words. }
  assert (W1 : Forall writable (sorted (C1 tables))) by (by rewrite sorted_perm).
  assert (W2 : Forall writable (sorted (C2 tables))) by (by rewrite sorted_perm).
  unfold written_lines. cbv zeta.
  repeat apply Forall_app_2.
  - repeat (apply Forall_cons_2; [by apply no_newline_lit|]). apply Forall_nil_2.
  - apply Forall_forall. intros s Hs'.
    apply list_elem_of_In, in_map_iff in Hs' as (i & <- & _).
    unfold row_text. repeat apply no_newline_app.
    + apply Hc. destruct (sorted (C1 tables) !! i) as [e|] eqn:E; [|done].
      rewrite Forall_forall in W1. apply W1. by eapply list_elem_of_lookup_2.
    + by apply no_newline_lit.
    + apply Hc. destruct (sorted (C2 tables) !! i) as [e|] eqn:E; [|done].
      rewrite Forall_forall in W2. apply W2. by eapply list_elem_of_lookup_2.
  - apply Forall_cons_2; [apply Forall_nil_2|].
    apply Forall_cons_2; [by apply no_newline_lit|].
    apply Forall_cons_2.
    { unfold summary_text. repeat apply no_newline_app;
        [by apply no_newline_lit..|by apply Hs]. }
    apply Forall_cons_2.
    { unfold summary_text. repeat apply no_newline_app;
        [by apply no_newline_lit..|by apply Hs]. }
    apply Forall_cons_2; [by apply no_newline_lit|]. apply Forall_nil_2.
Qed.

Lemma for_each_written_lines tables :
  Forall writable (C1 tables) -> Forall writable (C2 tables) ->
  for_each side_by_side_line (written_lines tables) {| C1 := []; C2 := [] |}
  = Ret {| C1 := sorted (C1 tables); C2 := sorted (C2 tables) |}.
Proof.
  intros H1 H2.
  assert (W1 : Forall writable (sorted (C1 tables))) by (by rewrite sorted_perm).
  assert (W2 : Forall writable (sorted (C2 tables))) by (by rewrite sorted_perm).
  unfold written_lines. cbv zeta.
  rewrite for_each_app. cbn [for_each].
  rewrite side_by_side_line_header. cbn [mbind result_bind].
  rewrite side_by_side_line_marker by (by vm_compute). cbn [mbind result_bind].
  rewrite for_each_app, for_each_rows by done. cbn [mbind result_bind for_each C1 C2 app].
  rewrite side_by_side_line_blank. cbn [mbind result_bind].
  rewrite side_by_side_line_marker by (by vm_compute). cbn [mbind result_bind].
  rewrite side_by_side_line_summary by (by vm_compute). cbn [mbind result_bind].
  rewrite side_by_side_line_summary by (by vm_compute). cbn [mbind result_bind].
  by rewrite side_by_side_line_marker by (by vm_compute).
Qed.


End RoundTrip.


(** * Further properties *)

(** ** More on the engine *)

Section EngineMore.
Implicit Types (d : gmap Z (Z * str)) (rows : list entry) (tables : roster).

Lemma option_ext {A} (o1 o2 : option A) :
  (forall v, o1 = Some v ↔ o2 = Some v) -> o1 = o2.
Proof.
  intros H. destruct o1 as [a|], o2 as [b|]; try done.
  - by apply H.
  - by destruct (proj1 (H a) eq_refl).
  - by destruct (proj2 (H b) eq_refl).
Qed.

(** Two tables in strictly ascending order with the same records are one. *)
Lemma strictly_ascending_ext rows1 rows2 :
  strictly_ascending rows1 -> strictly_ascending rows2 ->
  (forall e, e ∈ rows1 ↔ e ∈ rows2) -> rows1 = rows2.
Proof.
  intros H1 H2 He. apply strictly_ascending_unique; [done..|].
  apply NoDup_Permutation; [| |done].
  - eapply NoDup_fmap_1. by apply strict_NoDup.
  - eapply NoDup_fmap_1. by apply strict_NoDup.
Qed.

(** The working dictionary of a table in strictly ascending order has
    its records and no other. *)
Lemma dict_of_rows_strict rows n u nm :
  strictly_ascending rows ->
  dict_of_rows rows !! n = Some (u, nm) ↔ (n, u, nm) ∈ rows.
Proof. intros Hs. by apply dict_of_rows_unique, strict_NoDup. Qed.

Lemma dict_of_update_table_rows rows new_numbers max_unused increment_absent n :
  dict_of_rows (update_table_rows rows new_numbers max_unused increment_absent) !! n
  = reconciled (dict_of_rows rows) new_numbers max_unused increment_absent n.
Proof.
  apply option_ext. intros [u nm].
  rewrite dict_of_rows_strict by apply update_table_rows_strict.
  apply elem_of_update_table_rows.
Qed.

Lemma elem_of_numbers rows n : n ∈ num_of <$> rows ↔ is_Some (dict_of_rows rows !! n).
Proof.
  rewrite <- not_eq_None_Some, dict_of_rows_None.
  split; [by intros ? ?|]. intros H. by destruct (decide (n ∈ num_of <$> rows)).
Qed.

(** X1. The reported numbers count as a set. *)
Theorem update_table_rows_reported_set rows (new_numbers new_numbers' : list Z)
    (max_unused : Z) (increment_absent : bool) :
  (forall n, n ∈ new_numbers ↔ n ∈ new_numbers') ->
  update_table_rows rows new_numbers max_unused increment_absent
  = update_table_rows rows new_numbers' max_unused increment_absent.
Proof.
  intros Hset. apply strictly_ascending_ext; [apply update_table_rows_strict..|].
  intros [[n u] nm]. rewrite !elem_of_update_table_rows. unfold reconciled.
  destruct (decide (n ∈ new_numbers)) as [Hin|Hnin].
  - by rewrite decide_True by (by apply Hset).
  - by rewrite decide_False by (by rewrite <- Hset).
Qed.

Lemma freeze_numbers rows (new_numbers : list Z) (max_unused n : Z) :
  n ∈ num_of <$> update_table_rows rows new_numbers max_unused false
  ↔ (n ∈ num_of <$> rows \/ n ∈ new_numbers).
Proof.
  rewrite !elem_of_numbers, dict_of_update_table_rows. unfold reconciled.
  destruct (decide (n ∈ new_numbers)) as [Hin|Hnin].
  - split; [by right|by eexists].
  - destruct (dict_of_rows rows !! n) as [v|]; split; try done.
    + by left.
    + intros [[? [=]]|?]; done.
Qed.


(** X3. A bulk reconcile under the freeze policy done twice with the same
    numbers is the same as done once. *)
Theorem freeze_idempotent rows (new_numbers : list Z) (max_unused : Z) :
  update_table_rows (update_table_rows rows new_numbers max_unused false)
                    new_numbers max_unused false
  = update_table_rows rows new_numbers max_unused false.
Proof.
  apply strictly_ascending_ext; [apply update_table_rows_strict..|].
  intros [[n u] nm]. rewrite !elem_of_update_table_rows.
  unfold reconciled at 1. rewrite dict_of_update_table_rows. unfold reconciled.
  destruct (decide (n ∈ new_numbers)); [done|].
  by destruct (dict_of_rows rows !! n).
Qed.

(** X4. A bulk reconcile makes up no number and changes no name: a record
    of its result has the name its number had in the table, or the empty
    name when the number is a reported one the table did not have. *)
Theorem update_table_rows_names rows (new_numbers : list Z) (max_unused : Z)
    (increment_absent : bool) (n u : Z) (nm : str) :
  (n, u, nm) ∈ update_table_rows rows new_numbers max_unused increment_absent ->
  (exists u0, dict_of_rows rows !! n = Some (u0, nm))
  \/ ((n ∉ num_of <$> rows) /\ n ∈ new_numbers /\ u = 0 /\ nm = []).
Proof.
  rewrite elem_of_update_table_rows. unfold reconciled. intros H.
  destruct (dict_of_rows rows !! n) as [[u0 nm0]|] eqn:Hd.
  - left. exists u0. case_decide; [by simplify_eq|].
    destruct increment_absent; [|by simplify_eq].
    unfold aged in H. simpl in H. destruct (u0 + 1 >=? max_unused); by simplify_eq.
  - right. apply dict_of_rows_None in Hd. case_decide; by simplify_eq.
Qed.

End EngineMore.

Section EngineSeasons.
Implicit Types (d : gmap Z (Z * str)) (rows : list entry) (tables : roster).





End EngineSeasons.

Section DeleteUpsertMore.
Implicit Types (d : gmap Z (Z * str)) (rows : list entry) (tables : roster).

Lemma table_get_set_ne tables key key' rows :
  key' <> key -> table_get (table_set tables key rows) key' = table_get tables key'.
Proof. by destruct key, key'. Qed.

Lemma table_set_get tables key : table_set tables key (table_get tables key) = tables.
Proof. by destruct tables, key. Qed.

Lemma table_set_set tables key rows rows' :
  table_set (table_set tables key rows) key rows' = table_set tables key rows'.
Proof. by destruct key. Qed.

Lemma length_filter_complement (P : entry -> Prop) `{!forall e, Decision (P e)} rows :
  (length (filter P rows) + length (filter (fun e => ~ P e) rows) = length rows)%nat.
Proof.
  induction rows as [|e r IH]; [done|].
  rewrite !filter_cons. destruct (decide (P e)).
  - rewrite decide_False by tauto. simpl. lia.
  - rewrite decide_True by done. simpl. lia.
Qed.

Lemma filter_removed_ext rows (nums : list Z) :
  filter (fun e : entry => ~ (num_of e ∉ (list_to_set nums : gset Z))) rows
  = filter (fun e : entry => num_of e ∈ nums) rows.
Proof.
  apply list_filter_iff. intros e. rewrite elem_of_list_to_set.
  split; [|tauto]. intros H. by destruct (decide (num_of e ∈ nums)).
Qed.

(** X6. A bulk delete takes away the records of the listed numbers, all of
    them and no other, counts them, and leaves the other table alone. *)
Theorem delete_entry_effect tables (key : key) (nums : list Z) :
  nums <> [] ->
  let out := delete_entry tables key nums in
  (forall e, e ∈ table_get out.1 key ↔ (e ∈ table_get tables key /\ num_of e ∉ nums))
  /\ out.2 = Some (Z.of_nat (length (filter (fun e : entry => num_of e ∈ nums)
                                            (table_get tables key))))
  /\ (forall key', key' <> key -> table_get out.1 key' = table_get tables key').
Proof.
  intros Hne out. split; [|split].
  - intros e. unfold out. rewrite delete_entry_rows by done.
    rewrite elem_of_sorted, list_elem_of_filter, elem_of_list_to_set. tauto.
  - unfold out, delete_entry. destruct nums as [|x nums']; [done|].
    cbv zeta. cbn [snd]. rewrite table_get_set, length_sorted. f_equal.
    rewrite <- filter_removed_ext.
    pose proof (length_filter_complement
                  (fun e : entry => num_of e ∉ (list_to_set (x :: nums') : gset Z))
                  (table_get tables key)) as Hlen.
    lia.
  - intros key' Hk. unfold out, delete_entry. destruct nums; [done|].
    cbv zeta. cbn [fst]. by apply table_get_set_ne.
Qed.

Lemma filter_all (P : entry -> Prop) `{!forall e, Decision (P e)} rows :
  (forall e, e ∈ rows -> P e) -> filter P rows = rows.
Proof.
  induction rows as [|e r IH]; intros Hall; [done|].
  rewrite filter_cons, decide_True by (apply Hall; left).
  f_equal. apply IH. intros x Hx. apply Hall. by right.
Qed.

(** X7. A bulk delete done again removes nothing and changes nothing. *)
Theorem delete_entry_twice tables (key : key) (nums : list Z) :
  nums <> [] ->
  delete_entry (delete_entry tables key nums).1 key nums
  = ((delete_entry tables key nums).1, Some 0).
Proof.
  intros Hne.
  set (S := list_to_set nums : gset Z).
  set (rows := sorted (filter (fun e : entry => num_of e ∉ S) (table_get tables key))).
  assert (H1 : (delete_entry tables key nums).1 = table_set tables key rows).
  { unfold delete_entry. by destruct nums. }
  rewrite H1.
  assert (Hf : sorted (filter (fun e : entry => num_of e ∉ S) rows) = rows).
  { rewrite filter_all.
    - apply sorted_id, sorted_ascending.
    - intros e He. unfold rows in He.
      by apply elem_of_sorted, list_elem_of_filter in He as [He _]. }
  unfold delete_entry. destruct nums as [|x nums']; [done|]. cbv zeta.
  rewrite !table_get_set. fold S. rewrite Hf, table_set_set.
  do 2 f_equal. lia.
Qed.

(** X8. An upsert leaves the records of the other numbers, and the other
    table, as they are. *)
Theorem set_single_entry_frame tables (key : key) (car_no new_unused : Z)
    (name : str) (max_unused : Z) :
  let after := set_single_entry tables key car_no new_unused name max_unused in
  (forall key', key' <> key -> table_get after key' = table_get tables key')
  /\ (forall n u nm, n <> car_no ->
        ((n, u, nm) ∈ table_get after key
         ↔ dict_of_rows (table_get tables key) !! n = Some (u, nm))).
Proof.
  intros after. split.
  - intros key' Hk. unfold after, set_single_entry. by apply table_get_set_ne.
  - intros n u nm Hn. unfold after. rewrite set_single_entry_rows.
    by rewrite elem_of_sorted_rows_of_dict, upsert_dict_lookup_ne.
Qed.

(** X9. An upsert with an idle count at or above the threshold leaves no
    record of the number, and a table in strictly ascending order that did
    not have the number is left as it is. *)
Theorem set_single_entry_expired tables (key : key) (car_no new_unused : Z)
    (name : str) (max_unused : Z) :
  max_unused <= new_unused ->
  let after := set_single_entry tables key car_no new_unused name max_unused in
  (forall e, e ∈ table_get after key -> num_of e <> car_no)
  /\ (strictly_ascending (table_get tables key) ->
      car_no ∉ num_of <$> table_get tables key ->
      after = tables).
Proof.
  intros Hge after. split.
  - intros [[n u] nm] He Hn. unfold num_of in Hn. simpl in Hn. subst n.
    unfold after in He. rewrite set_single_entry_rows in He.
    apply elem_of_sorted_rows_of_dict in He.
    rewrite upsert_dict_lookup_eq in He. by rewrite geb_true in He by lia.
  - intros Hs Hnin. unfold after, set_single_entry.
    rewrite geb_true by lia.
    apply dict_of_rows_None in Hnin.
    rewrite bool_decide_false by (rewrite Hnin; by intros [? ?]).
    assert (Hrows : sorted (rows_of_dict (dict_of_rows (table_get tables key)))
                    = table_get tables key).
    { apply strictly_ascending_unique; [apply sorted_rows_of_dict_strict|done|].
      rewrite sorted_perm. by apply rows_of_dict_of_rows, strict_NoDup. }
    rewrite Hrows. apply table_set_get.
Qed.

(** X10. An upsert of a number the table does not have, with an idle count
    below the threshold, adds one record with the given name, empty or
    not; a table in strictly ascending order has one record more. *)
Theorem set_single_entry_new tables (key : key) (car_no new_unused : Z)
    (name : str) (max_unused : Z) :
  car_no ∉ num_of <$> table_get tables key ->
  new_unused < max_unused ->
  let after := set_single_entry tables key car_no new_unused name max_unused in
  (car_no, new_unused, name) ∈ table_get after key
  /\ (forall e, e ∈ table_get after key -> num_of e = car_no ->
        e = (car_no, new_unused, name))
  /\ (strictly_ascending (table_get tables key) ->
      length (table_get after key) = S (length (table_get tables key))).
Proof.
  intros Hnin Hlt after. apply dict_of_rows_None in Hnin.
  assert (Hin : (car_no, new_unused, name) ∈ table_get after key).
  { unfold after. rewrite set_single_entry_rows.
    apply elem_of_sorted_rows_of_dict. rewrite upsert_dict_lookup_eq, Hnin.
    rewrite geb_false by lia. by destruct name. }
  split; [done|]. split.
  - intros e He Hnum.
    eapply strictly_ascending_functional; [apply set_single_entry_strict|done..].
  - intros Hs. unfold after. rewrite set_single_entry_rows, length_sorted.
    rewrite <- (rows_of_dict_of_rows (table_get tables key)) at 2
      by (by apply strict_NoDup).
    unfold rows_of_dict, upsert_dict. rewrite !length_fmap, geb_false by lia.
    rewrite Hnin, !length_map_to_list. by apply map_size_insert_None.
Qed.

End DeleteUpsertMore.

(** ** More on the reader *)


Section Pieces.

Lemma infix_refl s : infix s s.
Proof. exists [], []. by rewrite app_nil_r. Qed.

Lemma infix_trans t s w : infix t s -> infix s w -> infix t w.
Proof.
  intros (a & b & ->) (a' & b' & ->). exists (a' ++ a), (b ++ b').
  by rewrite <- !app_assoc.
Qed.

Lemma infix_nil s : infix [] s.
Proof. by exists [], s. Qed.

Lemma infix_app_r t a s : infix t s -> infix t (a ++ s).
Proof. intros (x & y & ->). exists (a ++ x), y. by rewrite <- app_assoc. Qed.

Lemma infix_app_l t s b : infix t s -> infix t (s ++ b).
Proof. intros (x & y & ->). exists x, (y ++ b). by rewrite <- !app_assoc. Qed.


Lemma contains_app_r p a b : contains p b = true -> contains p (a ++ b) = true.
Proof.
  intros H. induction a as [|x a IH]; [done|].
  change ((x :: a) ++ b) with (x :: (a ++ b)). cbn [contains].
  rewrite IH. apply orb_true_r.
Qed.

Lemma contains_infix p t s : infix t s -> contains p t = true -> contains p s = true.
Proof.
  intros (a & b & ->) H. by apply contains_app_r, contains_app_l.
Qed.

Lemma strip_infix s : infix (strip s) s.
Proof. destruct (strip_decompose s) as (a & b & H & _). by exists a, b. Qed.

(** The tokens of [split] are tokens, and pieces of the text. *)
Lemma split_from_tokens s : forall cur t,
  Forall nonblank cur -> t ∈ split_from s cur ->
  is_token t /\ infix t (rev cur ++ s).
Proof.
  assert (Hflush : forall cur rest t, Forall nonblank cur -> t ∈ flush cur rest ->
            (is_token t /\ t = rev cur) \/ t ∈ rest).
  { intros cur rest t Hc Ht. unfold flush in Ht. destruct cur as [|c cur'] eqn:E; [by right|].
    rewrite <- E in *. apply elem_of_cons in Ht as [->|Ht]; [|by right].
    left. split; [|done]. split.
    - intros Hr. apply (f_equal (@rev Z)) in Hr. rewrite rev_involutive in Hr.
      by rewrite Hr in E.
    - apply Forall_forall. intros x Hx. rewrite elem_of_rev in Hx.
      rewrite Forall_forall in Hc. by apply Hc. }
  induction s as [|c r IH]; intros cur t Hc Ht; simpl in Ht.
  - apply Hflush in Ht as [[Htok ->]|Ht]; [|by apply elem_of_nil in Ht|done].
    split; [done|]. rewrite app_nil_r. apply infix_refl.
  - destruct (isspace_char c) eqn:E.
    + apply Hflush in Ht as [[Htok ->]|Ht]; [| |done].
      * split; [done|]. apply infix_app_l, infix_refl.
      * apply IH in Ht as [Htok Hin]; [|constructor].
        split; [done|]. simpl in Hin.
        apply infix_app_r. change (c :: r) with ([c] ++ r). by apply infix_app_r.
    + apply IH in Ht as [Htok Hin]; [|by constructor].
      split; [done|]. simpl in Hin. by rewrite <- app_assoc in Hin.
Qed.

Lemma split_tokens s t : t ∈ split s -> is_token t /\ infix t s.
Proof. intros Ht. by apply (split_from_tokens s [] t) in Ht. Qed.

(** The pieces of [re.split] are pieces of the text. *)
Lemma re_split_from_pieces s : forall skip cur p,
  (skip = 0%nat \/ cur = []) -> p ∈ re_split_from s skip cur ->
  infix p (rev cur ++ s).
Proof.
  induction s as [|c r IH]; intros skip cur p Hinv Hp; cbn [re_split_from] in Hp.
  - apply list_elem_of_singleton in Hp as ->. rewrite app_nil_r. apply infix_refl.
  - destruct skip as [|k].
    + destruct (sep_len (c :: r)) as [|k].
      * apply IH in Hp; [|by left]. simpl in Hp. by rewrite <- app_assoc in Hp.
      * apply elem_of_cons in Hp as [->|Hp]; [apply infix_app_l, infix_refl|].
        apply IH in Hp; [|by right]. simpl in Hp.
        apply infix_app_r. change (c :: r) with ([c] ++ r). by apply infix_app_r.
    + destruct Hinv as [?| ->]; [done|].
      apply IH in Hp; [|by right]. simpl in *.
      change (c :: r) with ([c] ++ r). by apply infix_app_r.
Qed.

Lemma re_split_nth s i : infix (nth i (re_split s) []) s.
Proof.
  destruct (nth_in_or_default i (re_split s) []) as [Hin| ->]; [|apply infix_nil].
  apply list_elem_of_In in Hin.
  by apply (re_split_from_pieces s 0 [] _ (or_introl eq_refl)) in Hin.
Qed.

End Pieces.

Section ReaderMore.
Context `{U : UnicodeDB}.

(** The name of a record of the tokenizer is empty or the first token,
    which is then no digit string. *)
Lemma parse_entry_tokens_name tokens e :
  parse_entry_tokens tokens = Ret (Some e) ->
  name_of e = [] \/ (name_of e ∈ tokens /\ isdigit (name_of e) = false).
Proof.
  unfold parse_entry_tokens. cbv zeta.
  destruct (Z.of_nat (length tokens) =? 0) eqn:E0; [done|].
  assert (Hin : nth 0 tokens [] ∈ tokens).
  { destruct tokens; [done|]. left. }
  destruct (isdigit (nth 0 tokens [])) eqn:E1.
  - repeat match goal with
    | |- context [if ?b then _ else _] => destruct b
    end; intros H; try done;
    repeat match goal with
    | H : (_ ≫= _) = Ret _ |- _ =>
      let n := fresh "n" in apply bind_Ret_inv in H as (n & _ & H)
    end; simplify_eq; by left.
  - repeat match goal with
    | |- context [if ?b then _ else _] => destruct b
    end; intros H; try done;
    repeat match goal with
    | H : (_ ≫= _) = Ret _ |- _ =>
      let n := fresh "n" in apply bind_Ret_inv in H as (n & _ & H)
    end; simplify_eq; by right.
Qed.

(** A record read from the tokens of a piece of a line without the marker
    is one the text format can carry. *)
Lemma parse_split_writable piece line e :
  infix piece line -> contains marker line = false ->
  parse_entry_tokens (split piece) = Ret (Some e) -> writable e.
Proof.
  intros Hinf Hm Hp.
  destruct (parse_entry_tokens_nonneg _ _ Hp) as [Hn Hu].
  split; [done|]. split; [done|].
  destruct (parse_entry_tokens_name _ _ Hp) as [Hnm|[Hin Hd]]; [by left|].
  right. apply split_tokens in Hin as [[_ Hnb] Hpiece].
  split; [done|]. split; [done|].
  destruct (contains marker (name_of e)) eqn:E; [|done].
  rewrite <- Hm. symmetry.
  eapply contains_infix; [|exact E]. by eapply infix_trans.
Qed.


Lemma append_if_writable tables key rec :
  writable_tables tables -> (forall e, rec = Some e -> writable e) ->
  writable_tables (append_if tables key rec).
Proof.
  intros [H1 H2] Hrec. destruct rec as [e|]; [|done].
  specialize (Hrec e eq_refl).
  destruct key; split; simpl; try done; apply Forall_app; split; try done;
    by apply Forall_singleton.
Qed.

Lemma side_by_side_line_writable tables raw_line tables' :
  writable_tables tables -> side_by_side_line tables raw_line = Ret tables' ->
  writable_tables tables'.
Proof.
  intros Ht. unfold side_by_side_line. cbv zeta.
  case_bool_decide as Hb; [by intros [= <-]|].
  destruct (contains marker (strip raw_line)) eqn:Hm; [by intros [= <-]|].
  assert (Hraw : contains marker raw_line = false).
  { by rewrite <- (contains_strip marker raw_line) by (done || apply marker_nonblank). }
  match goal with
  | |- context [if ?b then _ else _] => destruct b
  end; [by intros [= <-]|].
  destruct (isspace (take 1 raw_line)).
  - intros H. apply bind_Ret_inv in H as (r & Hr & H). simplify_eq.
    apply append_if_writable; [done|]. intros e ->.
    eapply (parse_split_writable _ raw_line); [apply strip_infix|done|done].
  - destruct (2 <=? length (re_split raw_line))%nat.
    + intros H. apply bind_Ret_inv in H as (r1 & Hr1 & H).
      apply bind_Ret_inv in H as (r2 & Hr2 & H). simplify_eq.
      apply append_if_writable; [apply append_if_writable; [done|]|]; intros e ->.
      * eapply (parse_split_writable _ raw_line); [|done|done].
        eapply infix_trans; [apply strip_infix|apply re_split_nth].
      * eapply (parse_split_writable _ raw_line); [|done|done].
        eapply infix_trans; [apply strip_infix|apply re_split_nth].
    + intros H. apply bind_Ret_inv in H as (r & Hr & H). simplify_eq.
      apply append_if_writable; [done|]. intros e ->.
      eapply (parse_split_writable _ raw_line); [apply strip_infix|done|done].
Qed.

Lemma sorted_twice rows : sorted (sorted rows) = sorted rows.
Proof. apply sorted_id, sorted_ascending. Qed.

(** The text the writer gives is read back as the tables in ascending
    order of number. *)
Lemma read_written tables :
  writable_tables tables ->
  read_tables_from_txt (write_tables_to_txt tables)
  = Ret {| C1 := sorted (C1 tables); C2 := sorted (C2 tables) |}.
Proof.
  intros [H1 H2]. unfold read_tables_from_txt. cbv zeta.
  rewrite write_tables_to_txt_lines.
  rewrite file_lines_concat by (by apply written_lines_no_newline).
  rewrite is_side_by_side_written, for_each_written_lines by done.
  cbn [mbind result_bind C1 C2]. by rewrite !sorted_twice.
Qed.

Lemma read_side_by_side_collected (content : str) (tables : roster) :
  is_side_by_side (file_lines content) = true ->
  read_tables_from_txt content = Ret tables ->
  exists collected,
    writable_tables collected
    /\ tables = {| C1 := sorted (C1 collected); C2 := sorted (C2 collected) |}.
Proof.
  intros Hside Hread.
  unfold read_tables_from_txt in Hread. cbv zeta in Hread. rewrite Hside in Hread.
  apply bind_Ret_inv in Hread as (collected & Hloop & H). simplify_eq.
  exists collected. split; [|done].
  assert (H0 : writable_tables {| C1 := []; C2 := [] |})
    by (split; apply Forall_nil_2).
  eapply (for_each_invariant writable_tables); [|exact H0|exact Hloop].
  intros s a s'. apply side_by_side_line_writable.
Qed.

Lemma read_side_by_side_writable (content : str) (tables : roster) :
  is_side_by_side (file_lines content) = true ->
  read_tables_from_txt content = Ret tables ->
  writable_tables tables.
Proof.
  intros Hside Hread.
  destruct (read_side_by_side_collected _ _ Hside Hread) as (collected & [W1 W2] & ->).
  split; cbn [C1 C2]; by rewrite sorted_perm.
Qed.

Lemma read_fixed_point (content : str) (tables : roster) :
  is_side_by_side (file_lines content) = true ->
  read_tables_from_txt content = Ret tables ->
  read_tables_from_txt (write_tables_to_txt tables) = Ret tables.
Proof.
  intros Hside Hread.
  pose proof (read_side_by_side_writable _ _ Hside Hread) as Hw.
  destruct (read_side_by_side_collected _ _ Hside Hread) as (collected & _ & ->).
  rewrite read_written by done. cbn [C1 C2]. by rewrite !sorted_twice.
Qed.

(** X11. The tables read from a file in the side-by-side layout hold only
    records the text format can carry, and are given back as they are
    when they are written and read again. *)
Theorem read_write_read (content : str) (tables : roster) :
  is_side_by_side (file_lines content) = true ->
  read_tables_from_txt content = Ret tables ->
  Forall writable (C1 tables) /\ Forall writable (C2 tables)
  /\ read_tables_from_txt (write_tables_to_txt tables) = Ret tables.
Proof.
  intros Hside Hread.
  destruct (read_side_by_side_writable _ _ Hside Hread) as [W1 W2].
  split; [done|]. split; [done|]. by eapply read_fixed_point.
Qed.

(** *** Line ends *)

Lemma universal_newlines_crlf s :
  Forall (fun c => c <> CR) s -> universal_newlines false (to_crlf s) = s.
Proof.
  induction 1 as [|c s Hc Hs IH]; [done|]. cbn [to_crlf].
  destruct (c =? LF) eqn:E.
  - apply Z.eqb_eq in E. subst c. cbn [universal_newlines].
    change (CR =? CR) with true. change (LF =? CR) with false.
    change (LF =? LF) with true. cbn [andb]. cbv iota. by rewrite IH.
  - cbn [universal_newlines].
    replace (c =? CR) with false by (symmetry; by apply Z.eqb_neq).
    rewrite E. cbn [andb]. cbv iota. by rewrite IH.
Qed.

Lemma universal_newlines_cr s : forall b,
  Forall (fun c => c <> CR) s -> universal_newlines b (to_cr s) = s.
Proof.
  induction s as [|c s IH]; intros b Hs; [done|].
  apply Forall_cons in Hs as [Hc Hs]. unfold to_cr. cbn [map].
  fold (to_cr s). destruct (c =? LF) eqn:E.
  - apply Z.eqb_eq in E. subst c. cbn [universal_newlines].
    change (CR =? CR) with true. cbv iota. by rewrite IH.
  - cbn [universal_newlines].
    replace (c =? CR) with false by (symmetry; by apply Z.eqb_neq).
    rewrite E. cbn [andb]. cbv iota. by rewrite IH.
Qed.

(** X12. The reader gives the same tables for a text whatever its line
    ends: those of Unix, of Windows or of the old Mac OS. *)
Theorem read_line_ends (content : str) :
  Forall (fun c => c <> CR) content ->
  read_tables_from_txt (to_crlf content) = read_tables_from_txt content
  /\ read_tables_from_txt (to_cr content) = read_tables_from_txt content.
Proof.
  intros Hc. unfold read_tables_from_txt, file_lines.
  by rewrite universal_newlines_crlf, universal_newlines_cr, universal_newlines_id.
Qed.

(** *** Files without a table *)

Lemma sequential_line_no_key tables ln :
  strip ln <> lit "C1" -> strip ln <> lit "C2" ->
  sequential_line (None, tables) ln = Ret (None, tables).
Proof.
  intros H1 H2. unfold sequential_line.
  rewrite (bool_decide_false (strip ln = lit "C1")) by done.
  rewrite (bool_decide_false (strip ln = lit "C2")) by done.
  case_bool_decide; [done|]. by destruct (startswith marker (strip ln)).
Qed.

(** X13. In the sequential layout the lines before the first table name
    are passed over, so a file without a line that is a table name gives
    two empty tables, whatever else it holds. *)
Theorem read_without_table_name (content : str) :
  is_side_by_side (file_lines content) = false ->
  Forall (fun ln => strip ln <> lit "C1" /\ strip ln <> lit "C2") (file_lines content) ->
  read_tables_from_txt content = Ret {| C1 := []; C2 := [] |}.
Proof.
  intros Hside Hlines. unfold read_tables_from_txt. cbv zeta. rewrite Hside.
  assert (Hloop : forall tables,
            for_each sequential_line (file_lines content) (None, tables)
            = Ret (None, tables)).
  { clear Hside.
    induction Hlines as [|ln lines [H1 H2] Hlines IH]; intros tables; [done|].
    cbn [for_each]. rewrite sequential_line_no_key by done.
    cbn [mbind result_bind]. apply IH. }
  by rewrite Hloop.
Qed.

(** *** ASCII files *)








End ReaderMore.

(** ** The console layer *)


Section ConsoleFacts.
Context `{U : UnicodeDB} `{C : Casing}.

(** The prompt of the single edit takes the record grammar of the file:
    the body of its loop is the tokenizer. *)
Lemma single_edit_parts_tokenizer (parts : list str) :
  single_edit_parts parts = parse_entry_tokens parts.
Proof.
  unfold single_edit_parts, parse_entry_tokens. cbv zeta.
  destruct (Z.of_nat (length parts) =? 0) eqn:E0.
  - apply Z.eqb_eq in E0. destruct parts; [done|]. simpl in E0. lia.
  - destruct (isdigit (nth 0 parts [])); [done|].
    destruct ((2 <=? Z.of_nat (length parts)) && isdigit (nth 1 parts [])); [|done].
    destruct ((3 <=? Z.of_nat (length parts)) && isdigit (nth 2 parts [])); [done|].
    by destruct (int (nth 1 parts [])).
Qed.








End ConsoleFacts.

Section ConsoleMore.
Context `{U : UnicodeDB} `{C : Casing}.


Lemma choose_table_returns prompt invalid ins : forall out k c',
  choose_table prompt invalid ins out = Returns k c' ->
  exists refused line,
    ins = refused ++ line :: stdin c'
    /\ strip line = key_digit k
    /\ Forall (fun l => strip l <> lit "1" /\ strip l <> lit "2") refused.
Proof.
  induction ins as [|line rest IH]; intros out k c' H; cbn [choose_table] in H; [done|].
  cbv zeta in H. case_bool_decide as H1.
  { simplify_eq. by exists [], line. }
  case_bool_decide as H2.
  { simplify_eq. by exists [], line. }
  apply IH in H as (refused & l & -> & Hl & Hr).
  exists (line :: refused), l. split; [done|]. split; [done|]. by constructor.
Qed.

Lemma ask_entry_returns ins : forall out e c',
  ask_entry ins out = Returns e c' ->
  exists refused line,
    ins = refused ++ line :: stdin c'
    /\ parse_entry_tokens (split (strip line)) = Ret (Some e)
    /\ Forall (fun l => parse_entry_tokens (split (strip l)) = Ret None) refused.
Proof.
  induction ins as [|line rest IH]; intros out e c' H; cbn [ask_entry] in H; [done|].
  cbv zeta in H.
  assert (Hcons : forall out1,
            parse_entry_tokens (split (strip line)) = Ret None ->
            ask_entry rest out1 = Returns e c' ->
            exists refused l,
              line :: rest = refused ++ l :: stdin c'
              /\ parse_entry_tokens (split (strip l)) = Ret (Some e)
              /\ Forall (fun l => parse_entry_tokens (split (strip l)) = Ret None) refused).
  { intros out1 Hp Hrec. apply IH in Hrec as (refused & l & -> & Hl & Hr).
    exists (line :: refused), l. split; [done|]. split; [done|]. by constructor. }
  case_bool_decide as He.
  - eapply Hcons; [|exact H]. by rewrite He.
  - rewrite single_edit_parts_tokenizer in H.
    destruct (parse_entry_tokens (split (strip line))) as [[e1|]|x] eqn:Hp; [| |done].
    + simplify_eq. by exists [], line.
    + by eapply Hcons.
Qed.

(** X16. Where [ask_single_edit] returns, the table is that of the first
    line typed that is [1] or [2], and the entry is what the tokenizer
    gives for the first line after it that the tokenizer takes, the lines
    between being refused; the number and the idle count are not
    negative, and the name is empty or without blanks and no digit
    string. *)
Theorem ask_single_edit_spec (c c' : console) (k : key) (e : entry) :
  ask_single_edit c = Returns (k, e) c' ->
  (exists refused1 line1 refused2 line2,
     stdin c = refused1 ++ line1 :: refused2 ++ line2 :: stdin c'
     /\ strip line1 = key_digit k
     /\ Forall (fun l => strip l <> lit "1" /\ strip l <> lit "2") refused1
     /\ parse_entry_tokens (split (strip line2)) = Ret (Some e)
     /\ Forall (fun l => parse_entry_tokens (split (strip l)) = Ret None) refused2)
  /\ 0 <= num_of e /\ 0 <= unused_of e
  /\ (name_of e = [] \/ (Forall nonblank (name_of e) /\ isdigit (name_of e) = false)).
Proof.
  unfold ask_single_edit, and_then. intros H.
  destruct (choose_table _ _ (stdin c) (stdout c)) as [k1 c1|] eqn:Hk; [|done].
  destruct (ask_entry (stdin c1) (stdout c1)) as [e1 c2|] eqn:He; [|done].
  simplify_eq.
  apply choose_table_returns in Hk as (refused1 & line1 & Hin1 & Hl1 & Hr1).
  apply ask_entry_returns in He as (refused2 & line2 & Hin2 & Hl2 & Hr2).
  split.
  - exists refused1, line1, refused2, line2. by rewrite Hin1, Hin2.
  - destruct (parse_entry_tokens_nonneg _ _ Hl2) as [Hn Hu].
    split; [done|]. split; [done|].
    destruct (parse_entry_tokens_name _ _ Hl2) as [Hnm|[Hin Hd]]; [by left|].
    right. by apply split_tokens in Hin as [[_ Hnb] _].
Qed.

(** *** The deletion with its prompts *)

Lemma delete_entry_subset tables key nums key' e :
  e ∈ table_get (delete_entry tables key nums).1 key' -> e ∈ table_get tables key'.
Proof.
  destruct (decide (nums = [])) as [->|Hne]; [done|].
  assert (Hsame : e ∈ table_get (delete_entry tables key nums).1 key ->
                  e ∈ table_get tables key).
  { rewrite delete_entry_rows by done.
    rewrite elem_of_sorted, list_elem_of_filter. tauto. }
  assert (Hother : key' <> key ->
            table_get (delete_entry tables key nums).1 key' = table_get tables key').
  { intros Hk. unfold delete_entry. destruct nums; [done|]. cbv zeta. cbn [fst].
    by rewrite table_get_set_ne. }
  destruct key', key; try done; intros He; by rewrite Hother in He.
Qed.

(** X18. The deletion mode adds and changes no record: a record of a table
    it returns is a record of that table as it was. *)
Theorem delete_entry_console_only_removes (tables tables' : roster) (c c' : console)
    (k : key) (e : entry) :
  delete_entry_console tables c = Returns tables' c' ->
  e ∈ table_get tables' k -> e ∈ table_get tables k.
Proof.
  unfold delete_entry_console, and_then. intros H.
  destruct (choose_table _ _ (stdin c) (stdout c)) as [k1 c1|]; [|done].
  destruct (input _ c1) as [raw c2|]; [|done].
  destruct (number_tokens _ [] (stdout c2)) as [[nums|x] out]; [|done].
  destruct (delete_entry tables k1 nums) as [t [removed|]] eqn:Hd.
  - assert (Ht : t = (delete_entry tables k1 nums).1) by (by rewrite Hd).
    destruct (0 <? removed); simplify_eq; apply delete_entry_subset.
  - by simplify_eq.
Qed.

(** *** The choice of the mode *)

Lemma choose_mode_loop_returns ins : forall out mode c',
  choose_mode_loop ins out = Returns mode c' ->
  mode ∈ [lit "1"; lit "2"; lit "3"; lit "4"; lit "5"]
  /\ exists refused line,
       ins = refused ++ line :: stdin c'
       /\ strip line = mode
       /\ Forall (fun l => strip l ∉ [lit "1"; lit "2"; lit "3"; lit "4"; lit "5"]) refused.
Proof.
  induction ins as [|line rest IH]; intros out mode c' H; cbn [choose_mode_loop] in H;
    [done|].
  cbv zeta in H. case_bool_decide as Hm.
  - simplify_eq. split; [done|]. by exists [], line.
  - apply IH in H as (Hin & refused & l & -> & Hl & Hr). split; [done|].
    exists (line :: refused), l. split; [done|]. split; [done|]. by constructor.
Qed.

(** X17. The mode [choose_mode] returns is one of the five digits, the
    first line typed that is one of them once stripped; the lines before
    it are passed over. *)
Theorem choose_mode_spec (c c' : console) (mode : str) :
  choose_mode c = Returns mode c' ->
  mode ∈ [lit "1"; lit "2"; lit "3"; lit "4"; lit "5"]
  /\ exists refused line,
       stdin c = refused ++ line :: stdin c'
       /\ strip line = mode
       /\ Forall (fun l => strip l ∉ [lit "1"; lit "2"; lit "3"; lit "4"; lit "5"]) refused.
Proof.
  unfold choose_mode. cbv zeta. cbn [print stdin stdout].
  apply choose_mode_loop_returns.
Qed.

End ConsoleMore.

(** ** What the writer always gives *)

Lemma universal_newlines_line l rest :
  no_newline l ->
  universal_newlines false (l ++ LF :: rest) = l ++ LF :: universal_newlines false rest.
Proof.
  induction 1 as [|c l [Hlf Hcr] Hl IH]; [done|].
  change ((c :: l) ++ LF :: rest) with (c :: (l ++ LF :: rest)).
  cbn [universal_newlines].
  replace (c =? CR) with false by (symmetry; by apply Z.eqb_neq).
  replace (c =? LF) with false by (symmetry; by apply Z.eqb_neq).
  cbn [andb]. by rewrite IH.
Qed.

Lemma file_lines_line l rest :
  no_newline l -> file_lines (l ++ LF :: rest) = l :: file_lines rest.
Proof.
  intros Hl. unfold file_lines. rewrite universal_newlines_line by done.
  apply splitlines_line. eapply Forall_impl; [exact Hl|]. by intros c [? _].
Qed.

Section WriterMore.
Context `{U : UnicodeDB}.

Lemma written_is_side_by_side (tables : roster) :
  is_side_by_side (file_lines (write_tables_to_txt tables)) = true.
Proof.
  unfold write_tables_to_txt. cbv zeta.
  set (rest := lit "车手 车号 闲置赛季数" ++ _).
  replace (lit "C1" ++ [TAB; TAB; TAB] ++ lit "C2" ++ [LF] ++ rest)
    with ((lit "C1" ++ [TAB; TAB; TAB] ++ lit "C2") ++ LF :: rest)
    by (by rewrite <- !app_assoc).
  rewrite file_lines_line.
  - unfold is_side_by_side. rewrite filter_cons_True by (by vm_compute).
    cbn [existsb]. apply orb_true_iff. left. by vm_compute.
  - vm_compute. repeat constructor; done.
Qed.

(** X19. A file of the writer that the reader takes gives tables that the
    writer and the reader give back as they are, whatever the tables
    written were. *)
Theorem written_file_stable (tables read : roster) :
  read_tables_from_txt (write_tables_to_txt tables) = Ret read ->
  read_tables_from_txt (write_tables_to_txt read) = Ret read.
Proof.
  intros H. by eapply read_fixed_point; [apply written_is_side_by_side|].
Qed.

End WriterMore.

(** ** The main program *)

Section MainFacts.
Context `{U : UnicodeDB} `{C : Casing}.

Lemma finish_cases content r :
  (exists s c, r = Raises s c
     /\ finish content r = (Some s, {| roster_file := content; backup_file := None |}, c))
  \/ (exists tables c, r = Returns tables c
        /\ finish content r
           = (None, {| roster_file := write_tables_to_txt tables;
                       backup_file := Some content |},
              (persist content tables c).2)).
Proof.
  destruct r as [tables c|s c]; [right|left].
  - by exists tables, c.
  - by exists s, c.
Qed.


Lemma bulk_update_returns tables increment_absent c tables' c' :
  bulk_update tables increment_absent c = Returns tables' c' ->
  exists input_c1 input_c2,
    C1 tables' = update_table_rows (C1 tables) input_c1 MAX_UNUSED increment_absent
    /\ C2 tables' = update_table_rows (C2 tables) input_c2 MAX_UNUSED increment_absent.
Proof.
  unfold bulk_update, and_then. intros H.
  destruct (collect_numbers_from_input (lit "C1") c) as [input_c1 c1|]; [|done].
  destruct (collect_numbers_from_input (lit "C2") c1) as [input_c2 c2|]; [|done].
  simplify_eq. by exists input_c1, input_c2.
Qed.

Lemma main_mode_1 content c c1 tables :
  read_tables_from_txt content = Ret tables ->
  choose_mode c = Returns (lit "1") c1 ->
  main content c = finish content (bulk_update tables true c1).
Proof.
  intros Hr Hm. unfold main. cbv zeta. rewrite Hr, Hm.
  by rewrite bool_decide_eq_true_2.
Qed.

Lemma main_mode_2 content c c1 tables :
  read_tables_from_txt content = Ret tables ->
  choose_mode c = Returns (lit "2") c1 ->
  main content c = finish content (bulk_update tables false c1).
Proof.
  intros Hr Hm. unfold main. cbv zeta. rewrite Hr, Hm.
  rewrite bool_decide_eq_false_2 by (by vm_compute).
  by rewrite bool_decide_eq_true_2.
Qed.

Lemma main_mode_5 content c c1 tables :
  read_tables_from_txt content = Ret tables ->
  choose_mode c = Returns (lit "5") c1 ->
  main content c
  = (Some (SystemExit 0),
     {| roster_file := write_tables_to_txt tables; backup_file := Some content |},
     (persist content tables c1).2).
Proof.
  intros Hr Hm. unfold main. cbv zeta. rewrite Hr, Hm.
  rewrite !bool_decide_eq_false_2 by (by vm_compute).
  by rewrite bool_decide_eq_true_2.
Qed.

(** X21. A run in mode 1 that comes to its end writes two tables in
    strictly ascending order of number, each idle count in 0..2, for
    whatever file was read and whatever was typed. *)
Theorem main_new_season (content : str) (c c1 c' : console) (d : disk) :
  choose_mode c = Returns (lit "1") c1 ->
  main content c = (None, d, c') ->
  exists tables,
    roster_file d = write_tables_to_txt tables
    /\ backup_file d = Some content
    /\ forall k, strictly_ascending (table_get tables k)
                 /\ idle_bounded MAX_UNUSED (table_get tables k).
Proof.
  intros Hm Hmain.
  destruct (read_tables_from_txt content) as [tables|e] eqn:Hr.
  2:{ unfold main in Hmain. cbv zeta in Hmain. by rewrite Hr in Hmain. }
  rewrite (main_mode_1 _ _ _ _ Hr Hm) in Hmain.
  destruct (finish_cases content (bulk_update tables true c1))
    as [(s & c0 & _ & Hf)|(t & c0 & Hb & Hf)]; rewrite Hf in Hmain; [done|].
  simplify_eq. exists t. split; [done|]. split; [done|].
  apply bulk_update_returns in Hb as (i1 & i2 & H1 & H2).
  destruct (read_tables_from_txt_nonneg _ _ Hr) as [N1 N2].
  assert (Hidle : forall rows, Forall nonneg_entry rows -> idle_nonneg rows).
  { intros rows Hrows. eapply Forall_impl; [exact Hrows|]. by intros e [_ ?]. }
  intros [|]; cbn [table_get]; rewrite ?H1, ?H2;
    (split; [apply update_table_rows_strict
            |apply update_table_rows_increment_bounded; [done|by apply Hidle]]).
Qed.

(** X22. A run in mode 2 that comes to its end loses no number: every
    number of a table read is a number of the table written. *)
Theorem main_mid_season_keeps (content : str) (c c1 c' : console) (d : disk)
    (tables : roster) :
  read_tables_from_txt content = Ret tables ->
  choose_mode c = Returns (lit "2") c1 ->
  main content c = (None, d, c') ->
  exists tables',
    roster_file d = write_tables_to_txt tables'
    /\ forall k n, n ∈ num_of <$> table_get tables k -> n ∈ num_of <$> table_get tables' k.
Proof.
  intros Hr Hm Hmain.
  rewrite (main_mode_2 _ _ _ _ Hr Hm) in Hmain.
  destruct (finish_cases content (bulk_update tables false c1))
    as [(s & c0 & _ & Hf)|(t & c0 & Hb & Hf)]; rewrite Hf in Hmain; [done|].
  simplify_eq. exists t. split; [done|].
  apply bulk_update_returns in Hb as (i1 & i2 & H1 & H2).
  intros [|] n Hn; cbn [table_get] in *; rewrite ?H1, ?H2;
    apply freeze_numbers; by left.
Qed.

(** X23. Mode 5 on a side-by-side file keeps the roster: the run ends by
    [SystemExit(0)], the backup holds the file as it was, and the file
    written reads back as the tables that were read. *)
Theorem main_write_only (content : str) (c c1 : console) (tables : roster) :
  is_side_by_side (file_lines content) = true ->
  read_tables_from_txt content = Ret tables ->
  choose_mode c = Returns (lit "5") c1 ->
  exists d c',
    main content c = (Some (SystemExit 0), d, c')
    /\ backup_file d = Some content
    /\ read_tables_from_txt (roster_file d) = Ret tables.
Proof.
  intros Hside Hr Hm. rewrite (main_mode_5 _ _ _ _ Hr Hm).
  eexists _, _. split; [done|]. split; [done|].
  by eapply read_fixed_point.
Qed.

End MainFacts.

(** ** The text of one record *)

Section RecordText.
Context `{U : UnicodeDB}.



End RecordText.

(** ** The order of the records given to the writer *)

Lemma sorted_permutation rows rows' :
  rows ≡ₚ rows' -> NoDup (num_of <$> rows) -> sorted rows = sorted rows'.
Proof.
  intros Hp Hnd.
  assert (Hnd' : NoDup (num_of <$> rows')) by (by rewrite <- Hp).
  apply strictly_ascending_ext; [by apply sorted_strictly_ascending..|].
  intros e. rewrite !elem_of_sorted. by rewrite Hp.
Qed.

(** X25. The text written does not depend on the order of the records in
    the tables, when no table has a number twice. *)
Theorem write_tables_to_txt_order (tables tables' : roster) :
  C1 tables ≡ₚ C1 tables' -> C2 tables ≡ₚ C2 tables' ->
  NoDup (num_of <$> C1 tables) -> NoDup (num_of <$> C2 tables) ->
  write_tables_to_txt tables = write_tables_to_txt tables'.
Proof.
  intros P1 P2 N1 N2. unfold write_tables_to_txt. cbv zeta.
  by rewrite (sorted_permutation _ _ P1 N1), (sorted_permutation _ _ P2 N2).
Qed.

(** ** Reading the sequential layout *)

Section SequentialLayout.
Context `{U : UnicodeDB}.










End SequentialLayout.

(** * Instances on concrete inputs *)

(** Closed decidable goals, by evaluation. *)
Ltac decide_closed := apply (bool_decide_unpack _); vm_compute; exact I.

Lemma tokenizer_resolution_witness :
  isdigit (U:=base_ucd) (lit "15") = true
  /\ isdigit (U:=base_ucd) (lit "abc") = false
  /\ parse_entry_tokens (U:=base_ucd) [lit "15"; lit "abc"; lit "7"] = Ret None.
Proof.
  split; [reflexivity|]. split; [reflexivity|].
  destruct (tokenizer_resolution (U:=base_ucd)) as (_ & _ & _ & _ & _ & H & _).
  apply H; reflexivity.
Defined.






Lemma idle_count_bound_witness :
  0 < 3
  /\ idle_nonneg [(5, 7, []); (7, 0, [])]
  /\ idle_bounded 3 (update_table_rows [(5, 7, []); (7, 0, [])] [9] 3 true).
Proof.
  assert (H1 : 0 < 3) by reflexivity.
  assert (H2 : idle_nonneg [(5, 7, []); (7, 0, [])])
    by (unfold idle_nonneg; decide_closed).
  split; [exact H1|]. split; [exact H2|].
  exact (proj1 (proj2 (idle_count_bound (U:=base_ucd)
                         {| C1 := [(5, 7, []); (7, 0, [])]; C2 := [] |} K1 3 H1 H2)) [9]).
Defined.

(** C4 fails on the reader and on the freeze policy: an idle count of 7
    in the file is in the table that is read, and a bulk reconcile under
    the freeze policy with threshold 3 keeps it. *)
Lemma idle_count_bound_counterexample :
  read_tables_from_txt (U:=base_ucd)
    (lit "C1" ++ [TAB; TAB; TAB] ++ lit "C2" ++ [LF] ++ lit "5 7" ++ [LF])
  = Ret {| C1 := [(5, 7, [])]; C2 := [] |}
  /\ update_table_rows [(5, 7, [])] [] 3 false = [(5, 7, [])]
  /\ ~ idle_bounded 3 [(5, 7, [])].
Proof.
  split; [vm_compute; reflexivity|]. split; [vm_compute; reflexivity|].
  unfold idle_bounded. decide_closed.
Defined.

Lemma reset_on_report_witness :
  9 ∈ [9; 7]
  /\ (7, 0, lit "b") ∈ update_table_rows [(5, 2, lit "a"); (7, 2, lit "b")] [9; 7] 3 true
  /\ (9, 0, []) ∈ update_table_rows [(5, 2, lit "a"); (7, 2, lit "b")] [9; 7] 3 true.
Proof.
  assert (H9 : 9 ∈ [9; 7]) by decide_closed.
  assert (H7 : 7 ∈ [9; 7]) by decide_closed.
  split; [exact H9|]. split.
  - refine (proj1 (reset_on_report [(5, 2, lit "a"); (7, 2, lit "b")] [9; 7] 3 true 7 H7)
              2 (lit "b") _).
    vm_compute. reflexivity.
  - refine (proj1 (proj2 (reset_on_report [(5, 2, lit "a"); (7, 2, lit "b")]
                            [9; 7] 3 true 9 H9)) _).
    decide_closed.
Defined.

Lemma freeze_empty_identity_witness :
  strictly_ascending [(5, 2, lit "a"); (7, 9, lit "b")]
  /\ update_table_rows [(5, 2, lit "a"); (7, 9, lit "b")] [] 3 false
     = [(5, 2, lit "a"); (7, 9, lit "b")].
Proof.
  assert (H : strictly_ascending [(5, 2, lit "a"); (7, 9, lit "b")])
    by (unfold strictly_ascending; decide_closed).
  split; [exact H|]. exact (freeze_empty_identity _ 3 H).
Defined.

(** C6 fails on a sorted table with a number twice, which the reader can
    return: the reconcile keeps the later record of the number only. *)
Lemma freeze_empty_identity_counterexample :
  ascending [(5, 0, []); (5, 1, [])]
  /\ update_table_rows [(5, 0, []); (5, 1, [])] [] 3 false = [(5, 1, [])]
  /\ [(5, 1, @nil Z)] <> [(5, 0, []); (5, 1, [])].
Proof.
  split; [unfold ascending; decide_closed|].
  split; [vm_compute; reflexivity|]. discriminate.
Defined.

Lemma upsert_name_preservation_witness :
  dict_of_rows [(5, 2, lit "a")] !! 5 = Some (2, lit "a")
  /\ 1 < 3
  /\ (5, 1, lit "a")
     ∈ table_get (set_single_entry {| C1 := [(5, 2, lit "a")]; C2 := [] |} K1 5 1 [] 3) K1
  /\ (5, 1, lit "z")
     ∈ table_get (set_single_entry {| C1 := [(5, 2, lit "a")]; C2 := [] |} K1 5 1 (lit "z") 3)
                 K1.
Proof.
  assert (H1 : dict_of_rows [(5, 2, lit "a")] !! 5 = Some (2, lit "a"))
    by (vm_compute; reflexivity).
  assert (H2 : 1 < 3) by reflexivity.
  split; [exact H1|]. split; [exact H2|]. split.
  - exact (proj1 (upsert_name_preservation {| C1 := [(5, 2, lit "a")]; C2 := [] |}
                    K1 5 1 [] 3 2 (lit "a") H1 H2) eq_refl).
  - refine (proj1 (proj2 (upsert_name_preservation
                            {| C1 := [(5, 2, lit "a")]; C2 := [] |}
                            K1 5 1 (lit "z") 3 2 (lit "a") H1 H2)) _).
    vm_compute. discriminate.
Defined.

Lemma marker_skipping_witness :
  contains marker (strip (lit "车号王 5 0")) = true
  /\ side_by_side_line (U:=base_ucd) {| C1 := []; C2 := [] |} (lit "车号王 5 0")
     = Ret {| C1 := []; C2 := [] |}
  /\ startswith marker (strip (lit "车号王 5 0")) = true
  /\ sequential_line (U:=base_ucd) (Some K1, {| C1 := []; C2 := [] |}) (lit "车号王 5 0")
     = Ret (Some K1, {| C1 := []; C2 := [] |}).
Proof.
  assert (H1 : contains marker (strip (lit "车号王 5 0")) = true) by reflexivity.
  assert (H2 : startswith marker (strip (lit "车号王 5 0")) = true) by reflexivity.
  destruct (marker_skipping (U:=base_ucd) {| C1 := []; C2 := [] |} K1 (lit "车号王 5 0"))
    as (Hs & Hq & _).
  split; [exact H1|]. split; [exact (Hs H1)|]. split; [exact H2|]. exact (Hq H2).
Defined.

(** ** Instances of the further properties *)

Lemma update_table_rows_reported_set_witness :
  (forall n : Z, n ∈ [7; 5; 7] ↔ n ∈ [5; 7])
  /\ update_table_rows [(5, 2, lit "a")] [7; 5; 7] 3 true
     = update_table_rows [(5, 2, lit "a")] [5; 7] 3 true.
Proof.
  assert (H : forall n : Z, n ∈ [7; 5; 7] ↔ n ∈ [5; 7]).
  { intros n. rewrite !elem_of_cons, !elem_of_nil. tauto. }
  split; [exact H|].
  exact (update_table_rows_reported_set [(5, 2, lit "a")] [7; 5; 7] [5; 7] 3 true H).
Defined.


Lemma update_table_rows_names_witness :
  (9, 0, []) ∈ update_table_rows [(5, 2, lit "a")] [9] 3 true
  /\ ((exists u0, dict_of_rows [(5, 2, lit "a")] !! 9 = Some (u0, []))
      \/ ((9 ∉ num_of <$> [(5, 2, lit "a")]) /\ 9 ∈ [9] /\ 0 = 0 /\ @nil Z = [])).
Proof.
  assert (H : (9, 0, []) ∈ update_table_rows [(5, 2, lit "a")] [9] 3 true)
    by decide_closed.
  split; [exact H|].
  exact (update_table_rows_names [(5, 2, lit "a")] [9] 3 true 9 0 [] H).
Defined.


Lemma delete_entry_effect_witness :
  [5; 999] <> @nil Z
  /\ (delete_entry {| C1 := [(5, 0, lit "a"); (7, 1, lit "b")]; C2 := [] |} K1 [5; 999]).2
     = Some 1.
Proof.
  assert (H : [5; 999] <> @nil Z) by discriminate.
  split; [exact H|].
  exact (proj1 (proj2 (delete_entry_effect
                         {| C1 := [(5, 0, lit "a"); (7, 1, lit "b")]; C2 := [] |}
                         K1 [5; 999] H))).
Defined.

Lemma delete_entry_twice_witness :
  [5] <> @nil Z
  /\ delete_entry
       (delete_entry {| C1 := [(5, 0, lit "a"); (7, 1, lit "b")]; C2 := [] |} K1 [5]).1
       K1 [5]
     = ((delete_entry {| C1 := [(5, 0, lit "a"); (7, 1, lit "b")]; C2 := [] |} K1 [5]).1,
        Some 0).
Proof.
  assert (H : [5] <> @nil Z) by discriminate.
  split; [exact H|].
  exact (delete_entry_twice {| C1 := [(5, 0, lit "a"); (7, 1, lit "b")]; C2 := [] |}
           K1 [5] H).
Defined.

Lemma set_single_entry_frame_witness :
  K2 <> K1
  /\ table_get (set_single_entry {| C1 := [(5, 0, lit "a")]; C2 := [(5, 1, lit "b")] |}
                  K1 9 0 (lit "z") 3) K2
     = [(5, 1, lit "b")].
Proof.
  assert (H : K2 <> K1) by discriminate.
  split; [exact H|].
  exact (proj1 (set_single_entry_frame
                  {| C1 := [(5, 0, lit "a")]; C2 := [(5, 1, lit "b")] |}
                  K1 9 0 (lit "z") 3) K2 H).
Defined.

Lemma set_single_entry_expired_witness :
  3 <= 5
  /\ forall e,
       e ∈ table_get (set_single_entry {| C1 := [(5, 0, lit "a")]; C2 := [] |}
                        K1 5 5 [] 3) K1 ->
       num_of e <> 5.
Proof.
  assert (H : 3 <= 5) by lia.
  split; [exact H|].
  exact (proj1 (set_single_entry_expired {| C1 := [(5, 0, lit "a")]; C2 := [] |}
                  K1 5 5 [] 3 H)).
Defined.

Lemma set_single_entry_new_witness :
  (9 ∉ num_of <$> table_get {| C1 := [(5, 0, lit "a")]; C2 := [] |} K1)
  /\ 0 < 3
  /\ (9, 0, lit "z")
     ∈ table_get (set_single_entry {| C1 := [(5, 0, lit "a")]; C2 := [] |}
                    K1 9 0 (lit "z") 3) K1.
Proof.
  assert (H : 9 ∉ num_of <$> table_get {| C1 := [(5, 0, lit "a")]; C2 := [] |} K1)
    by decide_closed.
  assert (Hu : 0 < 3) by lia.
  split; [exact H|]. split; [exact Hu|].
  exact (proj1 (set_single_entry_new {| C1 := [(5, 0, lit "a")]; C2 := [] |}
                  K1 9 0 (lit "z") 3 H Hu)).
Defined.

Lemma read_write_read_witness :
  is_side_by_side (file_lines (lit "C1   C2" ++ [LF] ++ lit "b 7 1   9" ++ [LF])) = true
  /\ read_tables_from_txt (U:=base_ucd) (lit "C1   C2" ++ [LF] ++ lit "b 7 1   9" ++ [LF])
     = Ret {| C1 := [(7, 1, lit "b")]; C2 := [(9, 0, [])] |}
  /\ read_tables_from_txt (U:=base_ucd)
       (write_tables_to_txt {| C1 := [(7, 1, lit "b")]; C2 := [(9, 0, [])] |})
     = Ret {| C1 := [(7, 1, lit "b")]; C2 := [(9, 0, [])] |}.
Proof.
  assert (Hs : is_side_by_side
                 (file_lines (lit "C1   C2" ++ [LF] ++ lit "b 7 1   9" ++ [LF])) = true)
    by (vm_compute; reflexivity).
  assert (Hr : read_tables_from_txt (U:=base_ucd)
                 (lit "C1   C2" ++ [LF] ++ lit "b 7 1   9" ++ [LF])
               = Ret {| C1 := [(7, 1, lit "b")]; C2 := [(9, 0, [])] |})
    by (vm_compute; reflexivity).
  split; [exact Hs|]. split; [exact Hr|].
  exact (proj2 (proj2 (read_write_read (U:=base_ucd) _ _ Hs Hr))).
Defined.

Lemma read_line_ends_witness :
  Forall (fun c => c <> CR) (lit "C1   C2" ++ [LF] ++ lit "b 7 1   9" ++ [LF])
  /\ read_tables_from_txt (U:=base_ucd)
       (to_crlf (lit "C1   C2" ++ [LF] ++ lit "b 7 1   9" ++ [LF]))
     = read_tables_from_txt (U:=base_ucd)
         (lit "C1   C2" ++ [LF] ++ lit "b 7 1   9" ++ [LF]).
Proof.
  assert (H : Forall (fun c => c <> CR)
                (lit "C1   C2" ++ [LF] ++ lit "b 7 1   9" ++ [LF])) by decide_closed.
  split; [exact H|].
  exact (proj1 (read_line_ends (U:=base_ucd) _ H)).
Defined.

Lemma read_without_table_name_witness :
  is_side_by_side (file_lines (lit "5 1" ++ [LF] ++ lit "zhang 7" ++ [LF])) = false
  /\ Forall (fun ln => strip ln <> lit "C1" /\ strip ln <> lit "C2")
       (file_lines (lit "5 1" ++ [LF] ++ lit "zhang 7" ++ [LF]))
  /\ read_tables_from_txt (U:=base_ucd) (lit "5 1" ++ [LF] ++ lit "zhang 7" ++ [LF])
     = Ret {| C1 := []; C2 := [] |}.
Proof.
  assert (Hs : is_side_by_side (file_lines (lit "5 1" ++ [LF] ++ lit "zhang 7" ++ [LF]))
               = false) by (vm_compute; reflexivity).
  assert (Hl : Forall (fun ln => strip ln <> lit "C1" /\ strip ln <> lit "C2")
                 (file_lines (lit "5 1" ++ [LF] ++ lit "zhang 7" ++ [LF])))
    by decide_closed.
  split; [exact Hs|]. split; [exact Hl|].
  exact (read_without_table_name (U:=base_ucd) _ Hs Hl).
Defined.



Lemma ask_single_edit_spec_witness :
  exists c',
    ask_single_edit (U:=base_ucd)
      {| stdin := [lit "3"; lit "1"; lit "x"; lit "zhang 15 2"]; stdout := [] |}
    = Returns (K1, (15, 2, lit "zhang")) c'
    /\ 0 <= num_of (15, 2, lit "zhang") /\ 0 <= unused_of (15, 2, lit "zhang")
    /\ (name_of (15, 2, lit "zhang") = []
        \/ (Forall nonblank (name_of (15, 2, lit "zhang"))
            /\ isdigit (U:=base_ucd) (name_of (15, 2, lit "zhang")) = false)).
Proof.
  assert (H : { c' | ask_single_edit (U:=base_ucd)
                       {| stdin := [lit "3"; lit "1"; lit "x"; lit "zhang 15 2"];
                          stdout := [] |}
                     = Returns (K1, (15, 2, lit "zhang")) c' })
    by (eexists; vm_compute; reflexivity).
  destruct H as [c' H]. exists c'. split; [exact H|].
  exact (proj2 (ask_single_edit_spec (U:=base_ucd) _ _ _ _ H)).
Defined.

Lemma choose_mode_spec_witness :
  exists c',
    choose_mode {| stdin := [lit "7"; lit " 4 "; lit "1"]; stdout := [] |}
    = Returns (lit "4") c'
    /\ lit "4" ∈ [lit "1"; lit "2"; lit "3"; lit "4"; lit "5"].
Proof.
  assert (H : { c' | choose_mode {| stdin := [lit "7"; lit " 4 "; lit "1"]; stdout := [] |}
                     = Returns (lit "4") c' })
    by (eexists; vm_compute; reflexivity).
  destruct H as [c' H]. exists c'. split; [exact H|].
  exact (proj1 (choose_mode_spec _ _ _ H)).
Defined.

Lemma delete_entry_console_only_removes_witness :
  exists c',
    delete_entry_console (U:=base_ucd)
      {| C1 := [(5, 0, lit "a"); (7, 1, lit "b")]; C2 := [] |}
      {| stdin := [lit "1"; lit "5, 999"]; stdout := [] |}
    = Returns {| C1 := [(7, 1, lit "b")]; C2 := [] |} c'
    /\ (7, 1, lit "b") ∈ table_get {| C1 := [(7, 1, lit "b")]; C2 := [] |} K1
    /\ (7, 1, lit "b")
       ∈ table_get {| C1 := [(5, 0, lit "a"); (7, 1, lit "b")]; C2 := [] |} K1.
Proof.
  assert (H : { c' | delete_entry_console (U:=base_ucd)
                       {| C1 := [(5, 0, lit "a"); (7, 1, lit "b")]; C2 := [] |}
                       {| stdin := [lit "1"; lit "5, 999"]; stdout := [] |}
                     = Returns {| C1 := [(7, 1, lit "b")]; C2 := [] |} c' })
    by (eexists; vm_compute; reflexivity).
  assert (He : (7, 1, lit "b") ∈ table_get {| C1 := [(7, 1, lit "b")]; C2 := [] |} K1)
    by decide_closed.
  destruct H as [c' H]. exists c'. split; [exact H|]. split; [exact He|].
  exact (delete_entry_console_only_removes (U:=base_ucd) _ _ _ _ K1 _ H He).
Defined.

Lemma written_file_stable_witness :
  read_tables_from_txt (U:=base_ucd)
    (write_tables_to_txt {| C1 := [(5, 0, lit "12")]; C2 := [] |})
  = Ret {| C1 := [(12, 5, [])]; C2 := [] |}
  /\ read_tables_from_txt (U:=base_ucd)
       (write_tables_to_txt {| C1 := [(12, 5, [])]; C2 := [] |})
     = Ret {| C1 := [(12, 5, [])]; C2 := [] |}.
Proof.
  assert (H : read_tables_from_txt (U:=base_ucd)
                (write_tables_to_txt {| C1 := [(5, 0, lit "12")]; C2 := [] |})
              = Ret {| C1 := [(12, 5, [])]; C2 := [] |}) by (vm_compute; reflexivity).
  split; [exact H|]. exact (written_file_stable (U:=base_ucd) _ _ H).
Defined.

Lemma main_new_season_witness :
  exists c1 d c',
    choose_mode {| stdin := [lit "1"; lit "7"; lit "#"; lit "#"]; stdout := [] |}
    = Returns (lit "1") c1
    /\ main (U:=base_ucd) (C:=ascii_casing)
         (lit "C1   C2" ++ [LF] ++ lit "b 7 1   9 2" ++ [LF])
         {| stdin := [lit "1"; lit "7"; lit "#"; lit "#"]; stdout := [] |}
       = (None, d, c')
    /\ exists tables,
         roster_file d = write_tables_to_txt tables
         /\ backup_file d = Some (lit "C1   C2" ++ [LF] ++ lit "b 7 1   9 2" ++ [LF])
         /\ forall k, strictly_ascending (table_get tables k)
                      /\ idle_bounded MAX_UNUSED (table_get tables k).
Proof.
  assert (Hm : { c1 | choose_mode
                        {| stdin := [lit "1"; lit "7"; lit "#"; lit "#"]; stdout := [] |}
                      = Returns (lit "1") c1 })
    by (eexists; vm_compute; reflexivity).
  assert (H : { dc | main (U:=base_ucd) (C:=ascii_casing)
                       (lit "C1   C2" ++ [LF] ++ lit "b 7 1   9 2" ++ [LF])
                       {| stdin := [lit "1"; lit "7"; lit "#"; lit "#"]; stdout := [] |}
                     = (None, dc.1, dc.2) })
    by (eexists (_, _); vm_compute; reflexivity).
  destruct Hm as [c1 Hm]. destruct H as [[d c'] H]. exists c1, d, c'.
  split; [exact Hm|]. split; [exact H|].
  exact (main_new_season (U:=base_ucd) (C:=ascii_casing) _ _ _ _ _ Hm H).
Defined.

Lemma main_mid_season_keeps_witness :
  exists c1 d c',
    read_tables_from_txt (U:=base_ucd) (lit "C1   C2" ++ [LF] ++ lit "b 7 1   9 2" ++ [LF])
    = Ret {| C1 := [(7, 1, lit "b")]; C2 := [(9, 2, [])] |}
    /\ choose_mode {| stdin := [lit "2"; lit "8"; lit "#"; lit "#"]; stdout := [] |}
       = Returns (lit "2") c1
    /\ main (U:=base_ucd) (C:=ascii_casing)
         (lit "C1   C2" ++ [LF] ++ lit "b 7 1   9 2" ++ [LF])
         {| stdin := [lit "2"; lit "8"; lit "#"; lit "#"]; stdout := [] |}
       = (None, d, c')
    /\ exists tables',
         roster_file d = write_tables_to_txt tables'
         /\ forall k n,
              n ∈ num_of <$> table_get {| C1 := [(7, 1, lit "b")]; C2 := [(9, 2, [])] |} k ->
              n ∈ num_of <$> table_get tables' k.
Proof.
  assert (Hr : read_tables_from_txt (U:=base_ucd)
                 (lit "C1   C2" ++ [LF] ++ lit "b 7 1   9 2" ++ [LF])
               = Ret {| C1 := [(7, 1, lit "b")]; C2 := [(9, 2, [])] |})
    by (vm_compute; reflexivity).
  assert (Hm : { c1 | choose_mode
                        {| stdin := [lit "2"; lit "8"; lit "#"; lit "#"]; stdout := [] |}
                      = Returns (lit "2") c1 })
    by (eexists; vm_compute; reflexivity).
  assert (H : { dc | main (U:=base_ucd) (C:=ascii_casing)
                       (lit "C1   C2" ++ [LF] ++ lit "b 7 1   9 2" ++ [LF])
                       {| stdin := [lit "2"; lit "8"; lit "#"; lit "#"]; stdout := [] |}
                     = (None, dc.1, dc.2) })
    by (eexists (_, _); vm_compute; reflexivity).
  destruct Hm as [c1 Hm]. destruct H as [[d c'] H]. exists c1, d, c'.
  split; [exact Hr|]. split; [exact Hm|]. split; [exact H|].
  exact (main_mid_season_keeps (U:=base_ucd) (C:=ascii_casing) _ _ _ _ _ _ Hr Hm H).
Defined.

Lemma main_write_only_witness :
  exists c1,
    is_side_by_side (file_lines (lit "C1   C2" ++ [LF] ++ lit "b 7 1   9 2" ++ [LF])) = true
    /\ read_tables_from_txt (U:=base_ucd)
         (lit "C1   C2" ++ [LF] ++ lit "b 7 1   9 2" ++ [LF])
       = Ret {| C1 := [(7, 1, lit "b")]; C2 := [(9, 2, [])] |}
    /\ choose_mode {| stdin := [lit "5"]; stdout := [] |} = Returns (lit "5") c1
    /\ exists d c',
         main (U:=base_ucd) (C:=ascii_casing)
           (lit "C1   C2" ++ [LF] ++ lit "b 7 1   9 2" ++ [LF])
           {| stdin := [lit "5"]; stdout := [] |}
         = (Some (SystemExit 0), d, c')
         /\ backup_file d = Some (lit "C1   C2" ++ [LF] ++ lit "b 7 1   9 2" ++ [LF])
         /\ read_tables_from_txt (U:=base_ucd) (roster_file d)
            = Ret {| C1 := [(7, 1, lit "b")]; C2 := [(9, 2, [])] |}.
Proof.
  assert (Hs : is_side_by_side
                 (file_lines (lit "C1   C2" ++ [LF] ++ lit "b 7 1   9 2" ++ [LF])) = true)
    by (vm_compute; reflexivity).
  assert (Hr : read_tables_from_txt (U:=base_ucd)
                 (lit "C1   C2" ++ [LF] ++ lit "b 7 1   9 2" ++ [LF])
               = Ret {| C1 := [(7, 1, lit "b")]; C2 := [(9, 2, [])] |})
    by (vm_compute; reflexivity).
  assert (Hm : { c1 | choose_mode {| stdin := [lit "5"]; stdout := [] |}
                      = Returns (lit "5") c1 })
    by (eexists; vm_compute; reflexivity).
  destruct Hm as [c1 Hm]. exists c1.
  split; [exact Hs|]. split; [exact Hr|]. split; [exact Hm|].
  exact (main_write_only (U:=base_ucd) (C:=ascii_casing) _ _ _ _ Hs Hr Hm).
Defined.


Lemma write_tables_to_txt_order_witness :
  [(7, 0, []); (5, 1, lit "a")] ≡ₚ [(5, 1, lit "a"); (7, 0, [])]
  /\ NoDup (num_of <$> [(7, 0, []); (5, 1, lit "a")])
  /\ write_tables_to_txt {| C1 := [(7, 0, []); (5, 1, lit "a")]; C2 := [] |}
     = write_tables_to_txt {| C1 := [(5, 1, lit "a"); (7, 0, [])]; C2 := [] |}.
Proof.
  assert (P1 : [(7, 0, []); (5, 1, lit "a")] ≡ₚ [(5, 1, lit "a"); (7, 0, [])])
    by apply Permutation_swap.
  assert (P2 : @nil entry ≡ₚ []) by reflexivity.
  assert (N1 : NoDup (num_of <$> [(7, 0, []); (5, 1, lit "a")])) by decide_closed.
  assert (N2 : NoDup (num_of <$> @nil entry)) by apply NoDup_nil_2.
  split; [exact P1|]. split; [exact N1|].
  exact (write_tables_to_txt_order
           {| C1 := [(7, 0, []); (5, 1, lit "a")]; C2 := [] |}
           {| C1 := [(5, 1, lit "a"); (7, 0, [])]; C2 := [] |} P1 P2 N1 N2).
Defined.


(** ** Examples *)

Example lit_zhangsan : lit "张三" = [0x5F20; 0x4E09].
Proof. reflexivity. Qed.

Example lit_chehao : lit "车号" = [0x8F66; 0x53F7].
Proof. reflexivity. Qed.

Example parse_name_num_idle :
  parse_entry_tokens (U:=base_ucd) [lit "张三"; lit "15"; lit "2"]
  = Ret (Some (15, 2, lit "张三")).
Proof. reflexivity. Qed.

Example side_by_side_scenario :
  side_by_side_line (U:=base_ucd) {| C1 := []; C2 := [] |} (lit "张三 5 0   李四 0 0")
  = Ret {| C1 := [(5, 0, lit "张三")]; C2 := [(0, 0, lit "李四")] |}.
Proof. vm_compute. reflexivity. Qed.

Example read_sequential :
  read_tables_from_txt (U:=base_ucd)
    (lit "C1" ++ [LF] ++ lit "车号 x" ++ [CR; LF] ++ lit "7 1" ++ [LF] ++ lit "a 3"
     ++ [LF] ++ lit "C2" ++ [LF] ++ lit "b 2 2" ++ [LF])
  = Ret {| C1 := [(3, 0, lit "a"); (7, 1, [])]; C2 := [(2, 2, lit "b")] |}.
Proof. vm_compute. reflexivity. Qed.

Example update_increment :
  update_table_rows [(5, 2, lit "a"); (7, 0, lit "b"); (9, 1, [])] [9; 3; 9] 3 true
  = [(3, 0, []); (7, 1, lit "b"); (9, 0, [])].
Proof. vm_compute. reflexivity. Qed.

Example write_small :
  write_tables_to_txt {| C1 := [(15, 2, lit "a")]; C2 := [(0, 0, []); (120, 1, lit "b")] |}
  = lit "C1" ++ [TAB; TAB; TAB] ++ lit "C2" ++ [LF]
    ++ lit "车手 车号 闲置赛季数" ++ [TAB; TAB] ++ lit "车手 车号 闲置赛季数" ++ [LF]
    ++ lit "a 15 2" ++ [TAB; TAB] ++ lit "0 0" ++ [LF]
    ++ [TAB; TAB] ++ lit "b 120 1" ++ [LF]
    ++ [LF] ++ lit "车号选择范围：0，2-999未选号码" ++ [LF]
    ++ lit "C1 已使用车号: 15" ++ [LF]
    ++ lit "C2 已使用车号: 0,120" ++ [LF]
    ++ lit "车号具体使用人见《 车号统计》" ++ [LF].
Proof. vm_compute. reflexivity. Qed.

Example read_write_small :
  read_tables_from_txt (U:=base_ucd)
    (write_tables_to_txt {| C1 := [(15, 2, lit "a")]; C2 := [(120, 1, lit "b"); (0, 0, [])] |})
  = Ret {| C1 := [(15, 2, lit "a")]; C2 := [(0, 0, []); (120, 1, lit "b")] |}.
Proof. vm_compute. reflexivity. Qed.

(** A name with the marker, which the prompt of the single edit takes, is
    lost when the written text is read back. *)
Example read_write_marker_name :
  read_tables_from_txt (U:=base_ucd)
    (write_tables_to_txt {| C1 := [(5, 0, lit "车号王")]; C2 := [] |})
  = Ret {| C1 := []; C2 := [] |}.
Proof. vm_compute. reflexivity. Qed.
